(** * Offline Voice-to-Text + Grammar Checker: a shallow embedding of [main.py]

    The application object [VoiceToTextApp] is modelled as a record [App] of
    its mutable attributes, the live threads, the queue of callbacks handed to
    [root.after] and a trace of the calls made to the outside world.  Every
    method of the class is a function on [App]; the closures [task] and
    [on_complete] are defunctionalised.  The external collaborators (Vosk,
    LanguageTool, ffmpeg through [subprocess.run], the file system and the
    platform's path separator) are the fields of a record [Env]. *)

From Stdlib Require Import String Ascii List ZArith Bool Lia.
Import ListNotations.
Local Open Scope string_scope.
Local Open Scope Z_scope.

(** ** Python values *)

(** [bytes] objects: microphone chunks, file contents, ffmpeg's stdout. *)
Definition bytes := list Byte.byte.

(** A call either returns a value or raises; an exception is kept as the text
    [str(e)], which is all the program ever reads of it. *)
Inductive result (A : Type) : Type :=
| Ok (a : A)
| Raise (msg : string).
Arguments Ok {A} a.
Arguments Raise {A} msg.

(** The JSON objects decoded by [json.loads]: string keys, string values. *)
Definition dict := list (string * string).

Fixpoint dict_get (d : dict) (key default : string) : string :=
  match d with
  | [] => default
  | (k, v) :: d' => if String.eqb k key then v else dict_get d' key default
  end.

(** *** Characters

    A character is an [ascii] read as a code point below 256. *)

Definition code (c : ascii) : Z := Z.of_N (N_of_ascii c).

(** [str.isspace] on one character. *)
Definition isspace (c : ascii) : bool :=
  let n := code c in
  ((9 <=? n) && (n <=? 13)) || ((28 <=? n) && (n <=? 32))
  || (n =? 133) || (n =? 160).

(** [str.lower] on one character. *)
Definition lower_char (c : ascii) : ascii :=
  let n := code c in
  if ((65 <=? n) && (n <=? 90))
     || ((192 <=? n) && (n <=? 222) && negb (n =? 215))
  then ascii_of_N (Z.to_N (n + 32))
  else c.

Fixpoint lower (s : string) : string :=
  match s with
  | EmptyString => EmptyString
  | String c s' => String (lower_char c) (lower s')
  end.

(** *** [str.strip] *)

Fixpoint lstrip (s : string) : string :=
  match s with
  | EmptyString => EmptyString
  | String c s' => if isspace c then lstrip s' else s
  end.

Fixpoint rstrip (s : string) : string :=
  match s with
  | EmptyString => EmptyString
  | String c s' =>
      match rstrip s' with
      | EmptyString => if isspace c then EmptyString else String c EmptyString
      | t => String c t
      end
  end.

Definition strip (s : string) : string := rstrip (lstrip s).

(** Truthiness of a [str] and of a [list]. *)
Definition truthy_str (s : string) : bool :=
  match s with EmptyString => false | _ => true end.

Definition truthy_list {A : Type} (l : list A) : bool :=
  match l with [] => false | _ => true end.

(** *** [str.rfind] for one character, and slices *)

(** Highest index of [c] in [s], the first character having index [i];
    [-1] when [c] does not occur. *)
Fixpoint rfind_from (c : ascii) (s : string) (i : Z) : Z :=
  match s with
  | EmptyString => -1
  | String x s' =>
      let r := rfind_from c s' (i + 1) in
      if 0 <=? r then r else if Ascii.eqb x c then i else -1
  end.

Definition rfind (c : ascii) (s : string) : Z := rfind_from c s 0.

(** [p[:i]] and [p[i:]] for [0 <= i]. *)
Fixpoint take (n : nat) (s : string) : string :=
  match n, s with
  | O, _ => EmptyString
  | S n', EmptyString => EmptyString
  | S n', String c s' => String c (take n' s')
  end.

Fixpoint drop (n : nat) (s : string) : string :=
  match n, s with
  | O, _ => s
  | S n', EmptyString => EmptyString
  | S n', String c s' => drop n' s'
  end.

Definition slice_to (s : string) (i : Z) : string := take (Z.to_nat i) s.
Definition slice_from (s : string) (i : Z) : string := drop (Z.to_nat i) s.

(** [p[i:i+1]]: the character at [i] as a string, empty out of range. *)
Definition char_at (s : string) (i : Z) : string := take 1 (slice_from s i).

(** *** [os.path.splitext]

    [genericpath._splitext(p, sep, altsep, extsep)] with [extsep = "."].  The
    [while] loop skips the leading dots of the file name: it runs for at most
    [dotIndex - filenameIndex] iterations, which is the fuel. *)

Fixpoint skip_leading_dots (fuel : nat) (p : string) (filenameIndex dotIndex : Z)
  : option (string * string) :=
  match fuel with
  | O => None
  | S fuel' =>
      if filenameIndex <? dotIndex then
        if negb (String.eqb (char_at p filenameIndex) ".")
        then Some (slice_to p dotIndex, slice_from p dotIndex)
        else skip_leading_dots fuel' p (filenameIndex + 1) dotIndex
      else None
  end.

Definition _splitext (p : string) (sep : ascii) (altsep : option ascii)
  : string * string :=
  let sepIndex := rfind sep p in
  let sepIndex :=
    match altsep with
    | Some a => Z.max sepIndex (rfind a p)
    | None => sepIndex
    end in
  let dotIndex := rfind "."%char p in
  let found :=
    if sepIndex <? dotIndex then
      let filenameIndex := sepIndex + 1 in
      skip_leading_dots (Z.to_nat (dotIndex - filenameIndex)) p
                        filenameIndex dotIndex
    else None in
  match found with
  | Some r => r
  | None => (p, slice_to p 0)
  end.


(** ** External collaborators *)

(** What [subprocess.run] returns; [stderr] goes to [DEVNULL]. *)
Record CompletedProcess := { returncode : Z; stdout : bytes }.

Record Env := {
  (** Vosk: the internal state of a [KaldiRecognizer] and its methods.
      [Result] and [FinalResult] stand for the method followed by
      [json.loads]. *)
  rstate : Type;
  KaldiRecognizer : rstate;
  AcceptWaveform : rstate -> bytes -> result bool * rstate;
  Result : rstate -> dict * rstate;
  FinalResult : rstate -> dict * rstate;
  (** LanguageTool: the type of a match, [tool.check] and [tool.correct]. *)
  Match : Type;
  tool_check : string -> result (list Match);
  tool_correct : string -> result string;
  (** [subprocess.run(argv, stdout=PIPE, stderr=DEVNULL)]. *)
  subprocess_run : list string -> result CompletedProcess;
  (** [open(path, 'rb').read()]. *)
  open_read : string -> result bytes;
  (** [os.path.exists(model_path)] at start-up. *)
  model_exists : bool;
  (** [os.sep] and [os.altsep], the arguments [os.path.splitext] passes on. *)
  os_sep : ascii;
  os_altsep : option ascii
}.

(** Calls that leave the process or show a dialog, in the order they happen. *)
Inductive effect : Type :=
| ShowError (title message : string)
| ShowWarning (title message : string)
| SubprocessRun (argv : list string)
| OpenRead (path : string)
| AcceptCall (data : bytes)
| ResultCall
| FinalResultCall
| CheckCall (text : string)
| CorrectCall (text : string)
| StreamOpen
| StreamRead
| StreamClose
| Uncaught (message : string).

(** The closures passed to [run_in_thread], by the method that builds them and
    the variables they capture. *)
Inductive task : Type :=
| LoadTask (file_path : string)
| SubmitTask (raw_text : string).

Inductive handler : Type :=
| LoadOnComplete
| SubmitOnComplete.

(** Where a [record_microphone] thread stands: before line 194, or at the
    test of the [while]. *)
Inductive mic_pc : Type :=
| MicOpen
| MicLoop.

Inductive thread : Type :=
| Worker (func : task) (callback : option handler)
| RecordMicrophone (pc : mic_pc).

(** The widget [tk.Text]: [delete(1.0, END)], [insert(END, s)] and
    [get(1.0, END)], which appends the widget's final newline. *)
Definition newline : string := String (ascii_of_nat 10) EmptyString.
Definition Text_delete (w : string) : string := EmptyString.
Definition Text_insert (w s : string) : string := w ++ s.
Definition Text_get (w : string) : string := w ++ newline.

Definition ffmpeg_args (file_path : string) : list string :=
  ["ffmpeg"; "-i"; file_path; "-ar"; "16000"; "-ac"; "1"; "-f"; "wav"; "pipe:1"].

(** ** The application *)

Section Program.

Variable E : Env.

(** What a [task] returns. *)
Inductive value : Type :=
| Text (text : string)
| Review (matches : list (Match E)) (corrected : option string) (raw_text : string).

Record App := mkApp {
  recognizer : rstate E;
  is_recording : bool;
  audio_data : bytes;
  record_label : string * string;          (* relief, bg *)
  text_box : string;
  placeholder_box : string;
  threads : list thread;
  after_queue : list (handler * value);
  trace : list effect
}.

Definition with_recognizer (r : rstate E) (a : App) : App :=
  mkApp r (is_recording a) (audio_data a) (record_label a) (text_box a)
        (placeholder_box a) (threads a) (after_queue a) (trace a).
Definition with_is_recording (b : bool) (a : App) : App :=
  mkApp (recognizer a) b (audio_data a) (record_label a) (text_box a)
        (placeholder_box a) (threads a) (after_queue a) (trace a).
Definition with_audio_data (d : bytes) (a : App) : App :=
  mkApp (recognizer a) (is_recording a) d (record_label a) (text_box a)
        (placeholder_box a) (threads a) (after_queue a) (trace a).
Definition with_record_label (l : string * string) (a : App) : App :=
  mkApp (recognizer a) (is_recording a) (audio_data a) l (text_box a)
        (placeholder_box a) (threads a) (after_queue a) (trace a).
Definition with_text_box (s : string) (a : App) : App :=
  mkApp (recognizer a) (is_recording a) (audio_data a) (record_label a) s
        (placeholder_box a) (threads a) (after_queue a) (trace a).
Definition with_placeholder_box (s : string) (a : App) : App :=
  mkApp (recognizer a) (is_recording a) (audio_data a) (record_label a)
        (text_box a) s (threads a) (after_queue a) (trace a).
Definition with_threads (l : list thread) (a : App) : App :=
  mkApp (recognizer a) (is_recording a) (audio_data a) (record_label a)
        (text_box a) (placeholder_box a) l (after_queue a) (trace a).
Definition with_after_queue (q : list (handler * value)) (a : App) : App :=
  mkApp (recognizer a) (is_recording a) (audio_data a) (record_label a)
        (text_box a) (placeholder_box a) (threads a) q (trace a).
Definition with_trace (t : list effect) (a : App) : App :=
  mkApp (recognizer a) (is_recording a) (audio_data a) (record_label a)
        (text_box a) (placeholder_box a) (threads a) (after_queue a) t.

Definition log (e : effect) (a : App) : App := with_trace (trace a ++ [e]) a.

(** *** Code that may raise: state and exceptions

    A statement maps the application to an outcome and the application as the
    statement left it; what was mutated before an exception stays mutated. *)

Definition M (A : Type) : Type := App -> result A * App.

Definition ret {A : Type} (x : A) : M A := fun a => (Ok x, a).

Definition bind {A B : Type} (m : M A) (f : A -> M B) : M B :=
  fun a =>
    match m a with
    | (Ok x, a') => f x a'
    | (Raise e, a') => (Raise e, a')
    end.

(** [try: m except Exception as e: h e]. *)
Definition try_except {A : Type} (m : M A) (h : string -> M A) : M A :=
  fun a =>
    match m a with
    | (Ok x, a') => (Ok x, a')
    | (Raise e, a') => h e a'
    end.

Definition modify (f : App -> App) : M unit := fun a => (Ok tt, f a).

Definition lift {A : Type} (r : result A) : M A := fun a => (r, a).

Notation "x <- m ;; k" := (bind m (fun x => k))
  (at level 61, m at next level, right associativity).
Notation "m ;;; k" := (bind m (fun _ => k))
  (at level 61, right associativity).

(** The external calls, each leaving its mark on the trace. *)
Definition call_AcceptWaveform (data : bytes) : M bool :=
  fun a =>
    let a := log (AcceptCall data) a in
    let (r, s) := AcceptWaveform E (recognizer a) data in
    (r, with_recognizer s a).

Definition call_Result : M dict :=
  fun a =>
    let a := log ResultCall a in
    let (d, s) := Result E (recognizer a) in
    (Ok d, with_recognizer s a).

Definition call_FinalResult : M dict :=
  fun a =>
    let a := log FinalResultCall a in
    let (d, s) := FinalResult E (recognizer a) in
    (Ok d, with_recognizer s a).

Definition call_subprocess_run (argv : list string) : M CompletedProcess :=
  modify (log (SubprocessRun argv)) ;;; lift (subprocess_run E argv).

Definition call_open_read (path : string) : M bytes :=
  modify (log (OpenRead path)) ;;; lift (open_read E path).

Definition call_check (text : string) : M (list (Match E)) :=
  modify (log (CheckCall text)) ;;; lift (tool_check E text).

Definition call_correct (text : string) : M string :=
  modify (log (CorrectCall text)) ;;; lift (tool_correct E text).

Definition splitext (p : string) : string * string :=
  _splitext p (os_sep E) (os_altsep E).

(** *** [__init__] *)

Definition new_app : App :=
  {| recognizer := KaldiRecognizer E;
     is_recording := false;
     audio_data := [];
     record_label := ("raised", "lightgray");
     text_box := "";
     placeholder_box := "";
     threads := [];
     after_queue := [];
     trace := [] |}.

Definition __init__ : result App :=
  if negb (model_exists E)
  then Raise "Model 'vosk-model-small-en-us-0.15' not found. Please download it."
  else Ok new_app.

(** *** Methods run by the Tk main loop *)

Definition reset_app (a : App) : App :=
  let a := with_text_box (Text_delete (text_box a)) a in
  with_placeholder_box (Text_delete (placeholder_box a)) a.

Definition enable_manual_input (a : App) : App := reset_app a.

(** [threading.Thread(target=worker, daemon=True).start()]: the thread is
    created and will run when it is scheduled. *)
Definition run_in_thread (func : task) (callback : option handler) (a : App) : App :=
  with_threads (threads a ++ [Worker func callback]) a.

(** [file_path] is what [askopenfilename] returned, empty on cancel. *)
Definition load_audio_file (file_path : string) (a : App) : App :=
  if negb (truthy_str file_path) then a
  else
    let a := with_text_box (Text_delete (text_box a)) a in
    let a := with_text_box (Text_insert (text_box a) "Processing audio file...") a in
    run_in_thread (LoadTask file_path) (Some LoadOnComplete) a.

Definition start_walkie_talkie_recording (a : App) : App :=
  let a := with_is_recording true a in
  let a := with_record_label ("sunken", "red") a in
  let a := reset_app a in
  let a := with_text_box (Text_insert (text_box a) "Recording... Speak now.") a in
  with_threads (threads a ++ [RecordMicrophone MicOpen]) a.

Definition stop_walkie_talkie_recording (a : App) : App :=
  let a := with_is_recording false a in
  with_record_label ("raised", "lightgray") a.

Definition submit_text (a : App) : App :=
  let raw_text := strip (Text_get (text_box a)) in
  if negb (truthy_str raw_text) then
    log (ShowWarning "No Content" "The input box is empty.") a
  else
    let a := with_placeholder_box (Text_delete (placeholder_box a)) a in
    let a := with_placeholder_box
               (Text_insert (placeholder_box a) "Checking grammar...") a in
    run_in_thread (SubmitTask raw_text) (Some SubmitOnComplete) a.

(** *** The closures of [load_audio_file] *)

Definition load_audio_file_task (file_path : string) : M string :=
  try_except
    (let file_ext := lower (snd (splitext file_path)) in
     data <- (if negb (String.eqb file_ext ".wav")
              then process <- call_subprocess_run (ffmpeg_args file_path) ;;
                   ret (stdout process)
              else call_open_read file_path) ;;
     accepted <- call_AcceptWaveform data ;;
     if (accepted : bool)
     then result <- call_Result ;;
          ret (dict_get result "text" "")
     else ret "")
    (fun e => ret ("Error: " ++ e)).

Definition load_audio_file_on_complete (text : string) (a : App) : App :=
  if prefix "Error:" text then log (ShowError "Error" text) a
  else
    let a := with_text_box (Text_delete (text_box a)) a in
    with_text_box (Text_insert (text_box a) text) a.

(** *** The closures of [submit_text] *)

Definition submit_text_task (raw_text : string) : M value :=
  matches <- call_check raw_text ;;
  corrected <- (if truthy_list matches
                then c <- call_correct raw_text ;; ret (Some c)
                else ret None) ;;
  ret (Review matches corrected raw_text).

(** [corrected] is [None] only when [matches] is empty, and then it is not
    inserted. *)
Definition submit_text_on_complete (result : value) (a : App) : App :=
  match result with
  | Review matches corrected _ =>
      let a := with_placeholder_box (Text_delete (placeholder_box a)) a in
      if negb (truthy_list matches)
      then with_placeholder_box (Text_insert (placeholder_box a) "CORRECT") a
      else match corrected with
           | Some c => with_placeholder_box (Text_insert (placeholder_box a) c) a
           | None => a
           end
  | Text _ => a
  end.

(** *** [run_in_thread]'s [worker] *)

Definition call_func (func : task) : M value :=
  match func with
  | LoadTask file_path => text <- load_audio_file_task file_path ;; ret (Text text)
  | SubmitTask raw_text => submit_text_task raw_text
  end.

(** [self.root.after(0, lambda: callback(result))]. *)
Definition root_after (callback : handler) (result : value) : M unit :=
  modify (fun a => with_after_queue (after_queue a ++ [(callback, result)]) a).

Definition worker (func : task) (callback : option handler) : M unit :=
  result <- call_func func ;;
  match callback with
  | Some cb => root_after cb result
  | None => ret tt
  end.

(** The main loop running a queued [lambda: callback(result)]. *)
Definition call_handler (callback : handler) (result : value) (a : App) : App :=
  match callback, result with
  | LoadOnComplete, Text text => load_audio_file_on_complete text a
  | SubmitOnComplete, _ => submit_text_on_complete result a
  | LoadOnComplete, Review _ _ _ => a
  end.

(** *** [record_microphone]

    [device] is what the audio device answers to the call the thread makes
    next: to [p.open] when the thread starts (only success or failure counts),
    to [stream.read(4096)] inside the loop. *)

Definition record_microphone_open (device : result bytes) : M unit :=
  modify (log StreamOpen) ;;;
  _ <- lift device ;;
  modify (with_audio_data []).

(** One test of [while self.is_recording] and what follows it: an iteration
    (returning [true]) or lines 202 to 212 (returning [false]). *)
Definition record_microphone_loop (device : result bytes) : M bool :=
  fun a =>
    if is_recording a then
      (modify (log StreamRead) ;;;
       data <- lift device ;;
       modify (fun a => with_audio_data (audio_data a ++ data)%list a) ;;;
       _ <- call_AcceptWaveform data ;;
       ret true) a
    else
      (modify (log StreamClose) ;;;
       final_result <- call_FinalResult ;;
       let text := dict_get final_result "text" "" in
       modify (fun a => with_text_box (Text_delete (text_box a)) a) ;;;
       modify (fun a => with_text_box (Text_insert (text_box a) text) a) ;;;
       ret false) a.

(** *** Scheduling

    One step of a thread: a [worker] runs to its end, a [record_microphone]
    thread runs up to the next test of its loop.  The step returns the thread
    as it continues, or [None] when it has ended; an exception nobody catches
    ends the thread. *)

Definition thread_step (t : thread) (device : result bytes) (a : App)
  : option thread * App :=
  match t with
  | Worker func callback =>
      match worker func callback a with
      | (Ok _, a') => (None, a')
      | (Raise e, a') => (None, log (Uncaught e) a')
      end
  | RecordMicrophone MicOpen =>
      match record_microphone_open device a with
      | (Ok _, a') => (Some (RecordMicrophone MicLoop), a')
      | (Raise e, a') => (None, log (Uncaught e) a')
      end
  | RecordMicrophone MicLoop =>
      match record_microphone_loop device a with
      | (Ok true, a') => (Some (RecordMicrophone MicLoop), a')
      | (Ok false, a') => (None, a')
      | (Raise e, a') => (None, log (Uncaught e) a')
      end
  end.

Fixpoint replace_thread (l : list thread) (tid : nat) (t : option thread)
  : list thread :=
  match l, tid with
  | [], _ => []
  | _ :: l', O => match t with Some t' => t' :: l' | None => l' end
  | x :: l', S tid' => x :: replace_thread l' tid' t
  end.

(** What can happen next: the user acts, the main loop runs the oldest
    [after] callback, or the thread at position [tid] is scheduled. *)
Inductive event : Type :=
| ButtonPress
| ButtonRelease
| ClickLoad (file_path : string)
| ClickWrite
| ClickSubmit
| ClickReset
| Typing (content : string)
| RunAfter
| Sched (tid : nat) (device : result bytes).

Definition step (a : App) (ev : event) : App :=
  match ev with
  | ButtonPress => start_walkie_talkie_recording a
  | ButtonRelease => stop_walkie_talkie_recording a
  | ClickLoad file_path => load_audio_file file_path a
  | ClickWrite => enable_manual_input a
  | ClickSubmit => submit_text a
  | ClickReset => reset_app a
  | Typing content => with_text_box content a
  | RunAfter =>
      match after_queue a with
      | [] => a
      | (callback, result) :: q => call_handler callback result (with_after_queue q a)
      end
  | Sched tid device =>
      match nth_error (threads a) tid with
      | None => a
      | Some t =>
          let (t', a') := thread_step t device a in
          with_threads (replace_thread (threads a') tid t') a'
      end
  end.

Definition run (a : App) (evs : list event) : App := fold_left step evs a.

Definition reachable (a : App) : Prop := exists evs, run new_app evs = a.

(** The state of the push-to-talk session, read off the application. *)
Inductive status : Type := Idle | Capturing | Finalizing.

Definition is_mic (t : thread) : bool :=
  match t with RecordMicrophone _ => true | Worker _ _ => false end.

Definition session_status (a : App) : status :=
  if is_recording a then Capturing
  else if existsb is_mic (threads a) then Finalizing
  else Idle.

End Program.

Arguments Text {E} text.
Arguments Review {E} matches corrected raw_text.
Arguments recognizer {E} a.
Arguments is_recording {E} a.
Arguments audio_data {E} a.
Arguments record_label {E} a.
Arguments text_box {E} a.
Arguments placeholder_box {E} a.
Arguments threads {E} a.
Arguments after_queue {E} a.
Arguments trace {E} a.
Arguments session_status {E} a.
Arguments reachable {E} a.

(** ** Reading a trace *)

Definition subprocess_calls (t : list effect) : list (list string) :=
  flat_map (fun e => match e with SubprocessRun argv => [argv] | _ => [] end) t.

Definition open_calls (t : list effect) : list string :=
  flat_map (fun e => match e with OpenRead p => [p] | _ => [] end) t.

Definition accept_calls (t : list effect) : list bytes :=
  flat_map (fun e => match e with AcceptCall d => [d] | _ => [] end) t.

Definition is_engine_call (e : effect) : bool :=
  match e with
  | CheckCall _ | CorrectCall _ => true
  | _ => false
  end.

(** The spellings of the extension that [lower] sends to [".wav"]. *)
Definition one_of (c x y : ascii) : bool := Ascii.eqb c x || Ascii.eqb c y.

Definition wav_spelling (ext : string) : bool :=
  match ext with
  | String d (String w (String a (String v EmptyString))) =>
      Ascii.eqb d "." && one_of w "w" "W" && one_of a "a" "A" && one_of v "v" "V"
  | _ => false
  end.

(** Where the bytes of a file come from: the file itself when its extension
    is [.wav] in any letter case, ffmpeg's standard output otherwise. *)
Definition audio_source (E : Env) (file_path : string) : result bytes :=
  if wav_spelling (snd (splitext E file_path))
  then open_read E file_path
  else match subprocess_run E (ffmpeg_args file_path) with
       | Ok process => Ok (stdout process)
       | Raise e => Raise e
       end.

(** The first call of the file task: reading the file or running ffmpeg. *)
Definition source_call (E : Env) (file_path : string) : effect :=
  if wav_spelling (snd (splitext E file_path))
  then OpenRead file_path
  else SubprocessRun (ffmpeg_args file_path).

(** Empty, or made of whitespace only. *)
Fixpoint all_space (s : string) : bool :=
  match s with
  | EmptyString => true
  | String c s' => isspace c && all_space s'
  end.

(** Feeding the chunks of a session in capture order; [None] when the
    recognizer raises on one of them. *)
Fixpoint feed (E : Env) (r : rstate E) (chunks : list bytes) : option (rstate E) :=
  match chunks with
  | [] => Some r
  | c :: chunks' =>
      match AcceptWaveform E r c with
      | (Ok _, r') => feed E r' chunks'
      | (Raise _, _) => None
      end
  end.

(** The events of one push-to-talk session whose thread sits at [tid]: press,
    the thread opens the device, reads [chunks], release, the thread sees the
    flag and finishes. *)
Definition session (tid : nat) (chunks : list bytes) : list event :=
  ButtonPress :: Sched tid (Ok []) ::
  map (fun c => Sched tid (Ok c)) chunks ++
  [ButtonRelease; Sched tid (Ok [])].

(** ** Vocabulary for the properties of whole runs *)

(** The events of loading one file: the click, the worker at [tid], the main
    loop running the callback. *)
Definition load_once (file_path : string) (tid : nat) (device : result bytes)
  : list event :=
  [ClickLoad file_path; Sched tid device; RunAfter].

(** What the file task raises, if anything: the exception of the read or of
    ffmpeg's launch, else the one of [AcceptWaveform] on the bytes. *)
Definition file_task_exception (E : Env) (r : rstate E) (file_path : string)
  : option string :=
  match audio_source E file_path with
  | Raise e => Some e
  | Ok data =>
      match fst (AcceptWaveform E r data) with
      | Raise e => Some e
      | Ok _ => None
      end
  end.

(** The calls of a capture loop that reads [chunks]: each chunk is read and
    handed to the recognizer. *)
Definition capture_calls (chunks : list bytes) : list effect :=
  flat_map (fun c => [StreamRead; AcceptCall c]) chunks.

(** The calls that end a capture: closing the stream, asking for the final
    result. *)
Definition is_finish_call (e : effect) : bool :=
  match e with
  | StreamClose | FinalResultCall => true
  | _ => false
  end.

(** What one iteration of the capture loop raises, if anything: the
    exception of [stream.read], else the one of [AcceptWaveform]. *)
Definition iteration_exception (E : Env) (r : rstate E) (device : result bytes)
  : option string :=
  match device with
  | Raise e => Some e
  | Ok data =>
      match fst (AcceptWaveform E r data) with
      | Raise e => Some e
      | Ok _ => None
      end
  end.

(** *** What holds of every thread, queued callback and recorded call *)

(** A text as [submit_text] hands it to its task: not empty and already
    stripped. *)
Definition stripped (s : string) : Prop := s <> "" /\ strip s = s.

(** A thread as the methods create it: a worker carries the path chosen in
    the dialog or the stripped text of the pane, with the callback of the
    method that built it. *)
Definition thread_ok (t : thread) : Prop :=
  match t with
  | Worker (LoadTask file_path) callback =>
      file_path <> "" /\ callback = Some LoadOnComplete
  | Worker (SubmitTask raw_text) callback =>
      stripped raw_text /\ callback = Some SubmitOnComplete
  | RecordMicrophone _ => True
  end.

(** A queued callback receives the kind of value it unpacks; for a review,
    [matches] is what [tool.check] returned for [raw_text], and [corrected]
    is [None] exactly when there is no match and otherwise the string
    [tool.correct] returned for the same [raw_text]. *)
Definition callback_ok {E : Env} (c : handler * value E) : Prop :=
  match c with
  | (LoadOnComplete, Text _) => True
  | (SubmitOnComplete, Review matches corrected raw_text) =>
      (matches = [] <-> corrected = None) /\ stripped raw_text
      /\ tool_check E raw_text = Ok matches
      /\ match corrected with
         | Some c => tool_correct E raw_text = Ok c
         | None => True
         end
  | _ => False
  end.

(** A call as the program makes it: the grammar engine gets stripped text,
    the only process is ffmpeg on a path whose extension is not [.wav], and a
    file is opened only when its extension is [.wav]. *)
Definition effect_ok (E : Env) (e : effect) : Prop :=
  match e with
  | CheckCall text | CorrectCall text => stripped text
  | SubprocessRun argv =>
      exists file_path,
        file_path <> ""
        /\ wav_spelling (snd (splitext E file_path)) = false
        /\ argv = ffmpeg_args file_path
  | OpenRead path =>
      path <> "" /\ wav_spelling (snd (splitext E path)) = true
  | _ => True
  end.

Definition app_ok {E : Env} (a : App E) : Prop :=
  Forall thread_ok (threads a)
  /\ Forall callback_ok (after_queue a)
  /\ Forall (effect_ok E) (trace a).

(** The look of the record button for a value of the flag. *)
Definition label_for (recording : bool) : string * string :=
  if recording then ("sunken", "red") else ("raised", "lightgray").

(** The user editing the input pane, or emptying both panes with Reset or
    Write Text. *)
Definition is_edit (ev : event) : bool :=
  match ev with
  | Typing _ | ClickReset | ClickWrite => true
  | _ => false
  end.

(** [c] does not occur in [s]. *)
Fixpoint no_char (c : ascii) (s : string) : bool :=
  match s with
  | EmptyString => true
  | String x s' => negb (Ascii.eqb x c) && no_char c s'
  end.

(** Empty, or made of dots only. *)
Fixpoint all_dots (s : string) : bool :=
  match s with
  | EmptyString => true
  | String x s' => Ascii.eqb x "." && all_dots s'
  end.

(** The last character of a string. *)
Fixpoint last_char (s : string) : option ascii :=
  match s with
  | EmptyString => None
  | String c s' =>
      match last_char s' with
      | None => Some c
      | Some d => Some d
      end
  end.

(** [c] is [os.sep] or [os.altsep]. *)
Definition is_separator (E : Env) (c : ascii) : bool :=
  Ascii.eqb c (os_sep E)
  || match os_altsep E with
     | Some d => Ascii.eqb c d
     | None => false
     end.

(** What may come before a file name: nothing, or something that ends with
    a separator. *)
Definition ends_directory (E : Env) (pre : string) : bool :=
  match last_char pre with
  | None => true
  | Some c => is_separator E c
  end.

(** *** The extension of a path, said without indices

    What "the extension of the path" means, independently of
    [os.path.splitext]'s index arithmetic: take the file name (what follows
    the last separator), drop its leading dots, and keep what starts at the
    last dot that is left, or nothing when no dot is left. *)

Fixpoint has_separator (E : Env) (s : string) : bool :=
  match s with
  | EmptyString => false
  | String c s' => is_separator E c || has_separator E s'
  end.

Fixpoint file_name (E : Env) (p : string) : string :=
  match p with
  | EmptyString => EmptyString
  | String c s =>
      if has_separator E s then file_name E s
      else if is_separator E c then s
      else p
  end.

Fixpoint lstrip_dots (s : string) : string :=
  match s with
  | EmptyString => EmptyString
  | String c s' => if Ascii.eqb c "." then lstrip_dots s' else s
  end.

Fixpoint from_last_dot (s : string) : string :=
  match s with
  | EmptyString => EmptyString
  | String c s' =>
      match from_last_dot s' with
      | EmptyString => if Ascii.eqb c "." then s else EmptyString
      | t => t
      end
  end.

Definition path_extension (E : Env) (p : string) : string :=
  from_last_dot (lstrip_dots (file_name E p)).

(** ** A small concrete world

    The recognizer keeps the bytes it was fed, reports an utterance once four
    or more are pending, and transcribes a byte as the character of the same
    code; reading a result empties it.  LanguageTool knows one mistake.  The
    switches say whether the LanguageTool server answers and whether ffmpeg
    can be started; when it starts, ffmpeg exits with status 1 and writes
    nothing. *)

Module Demo.

Definition transcript (pending : bytes) : dict :=
  [("text", string_of_list_ascii (map ascii_of_byte pending))].

Definition audio (s : string) : bytes := map byte_of_ascii (list_ascii_of_string s).

Definition files (path : string) : result bytes :=
  if String.eqb path "hi.wav" then Ok (audio "hi")
  else if String.eqb path "test.wav" then Ok (audio "test")
  else if String.eqb path "err.wav" then Ok (audio "Error: none")
  else Raise ("[Errno 2] No such file or directory: '" ++ path ++ "'").

Definition world (server_up ffmpeg_found : bool) : Env :=
  {| rstate := bytes;
     KaldiRecognizer := [];
     AcceptWaveform := fun r d => (Ok (4 <=? length (r ++ d))%nat, (r ++ d)%list);
     Result := fun r => (transcript r, []);
     FinalResult := fun r => (transcript r, []);
     Match := nat;
     tool_check := fun s =>
       if server_up
       then Ok (if String.eqb s "teh cat" then [0%nat] else [])
       else Raise "LanguageTool server is not running";
     tool_correct := fun s =>
       if server_up
       then Ok (if String.eqb s "teh cat" then "the cat" else s)
       else Raise "LanguageTool server is not running";
     subprocess_run := fun argv =>
       if ffmpeg_found
       then Ok {| returncode := 1; stdout := [] |}
       else Raise "[Errno 2] No such file or directory: 'ffmpeg'";
     open_read := files;
     model_exists := true;
     os_sep := "/";
     os_altsep := None |}.

Definition env : Env := world true true.

End Demo.


(** ** Facts about strings and lists *)

Lemma all_space_app s t :
  all_space (s ++ t) = all_space s && all_space t.
Proof.
  induction s as [|c s IH]; simpl; [reflexivity|].
  rewrite IH. now rewrite andb_assoc.
Qed.

Lemma lstrip_all_space s : all_space s = true -> lstrip s = "".
Proof.
  induction s as [|c s IH]; simpl; [reflexivity|].
  intros H. apply andb_true_iff in H as [Hc Hs].
  rewrite Hc. now apply IH.
Qed.

Lemma lstrip_empty_all_space s : lstrip s = "" -> all_space s = true.
Proof.
  induction s as [|c s IH]; simpl; [reflexivity|].
  destruct (isspace c); [exact IH | discriminate].
Qed.

Lemma rstrip_lstrip_empty s : rstrip (lstrip s) = "" -> lstrip s = "".
Proof.
  induction s as [|c s IH]; simpl; [reflexivity|].
  destruct (isspace c) eqn:Hc; [exact IH|].
  simpl. destruct (rstrip s); [rewrite Hc|]; discriminate.
Qed.

Lemma strip_empty_iff s : strip s = "" <-> all_space s = true.
Proof.
  unfold strip. split.
  - intros H. now apply lstrip_empty_all_space, rstrip_lstrip_empty.
  - intros H. now rewrite (lstrip_all_space s H).
Qed.

Lemma strip_get_empty_iff w : strip (Text_get w) = "" <-> all_space w = true.
Proof.
  rewrite strip_empty_iff. unfold Text_get. rewrite all_space_app.
  change (all_space newline) with true. now rewrite andb_true_r.
Qed.

Lemma truthy_str_false s : truthy_str s = false <-> s = "".
Proof. destruct s; simpl; split; congruence. Qed.

Lemma nth_error_last {A : Type} (l : list A) (x : A) :
  nth_error (l ++ [x]) (length l) = Some x.
Proof. induction l; simpl; auto. Qed.

Lemma replace_thread_last l t r :
  replace_thread (l ++ [t]) (length l) r =
  (l ++ match r with Some t' => [t'] | None => [] end)%list.
Proof.
  induction l as [|x l IH]; simpl.
  - destruct r; reflexivity.
  - now rewrite IH.
Qed.

(** The fuel of [skip_leading_dots] is never what stops the loop: more fuel
    gives the same answer. *)
Lemma skip_leading_dots_fuel p dotIndex : forall fuel extra filenameIndex,
  (Z.to_nat (dotIndex - filenameIndex) <= fuel)%nat ->
  skip_leading_dots (fuel + extra)%nat p filenameIndex dotIndex =
  skip_leading_dots fuel p filenameIndex dotIndex.
Proof.
  induction fuel as [|fuel IH]; intros extra filenameIndex Hfuel.
  - destruct extra as [|extra]; [reflexivity|]. simpl.
    destruct (filenameIndex <? dotIndex) eqn:Hlt; [|reflexivity].
    apply Z.ltb_lt in Hlt. lia.
  - simpl.
    destruct (filenameIndex <? dotIndex) eqn:Hlt; [|reflexivity].
    destruct (negb _); [reflexivity|].
    apply IH. apply Z.ltb_lt in Hlt. lia.
Qed.

Lemma lower_char_dot c : Ascii.eqb (lower_char c) "." = Ascii.eqb c ".".
Proof. destruct c as [[] [] [] [] [] [] [] []]; reflexivity. Qed.

Lemma lower_char_w c : Ascii.eqb (lower_char c) "w" = one_of c "w" "W".
Proof. destruct c as [[] [] [] [] [] [] [] []]; reflexivity. Qed.

Lemma lower_char_a c : Ascii.eqb (lower_char c) "a" = one_of c "a" "A".
Proof. destruct c as [[] [] [] [] [] [] [] []]; reflexivity. Qed.

Lemma lower_char_v c : Ascii.eqb (lower_char c) "v" = one_of c "v" "V".
Proof. destruct c as [[] [] [] [] [] [] [] []]; reflexivity. Qed.

(** Comparing the lowered extension with [".wav"] accepts the sixteen
    spellings of [wav_spelling] and nothing else. *)
Lemma lower_is_wav ext : String.eqb (lower ext) ".wav" = wav_spelling ext.
Proof.
  destruct ext as [|d [|w [|a [|v [|x ext]]]]]; simpl;
    rewrite ?lower_char_dot, ?lower_char_w, ?lower_char_a, ?lower_char_v;
    try reflexivity.
  - now destruct (Ascii.eqb d ".").
  - now destruct (Ascii.eqb d "."), (one_of w "w" "W").
  - now destruct (Ascii.eqb d "."), (one_of w "w" "W"), (one_of a "a" "A").
  - destruct (Ascii.eqb d "."), (one_of w "w" "W"), (one_of a "a" "A"),
      (one_of v "v" "V"); reflexivity.
  - destruct (Ascii.eqb d "."), (one_of w "w" "W"), (one_of a "a" "A"),
      (one_of v "v" "V"); reflexivity.
Qed.

(** ** What the file task does, case by case *)

Section FileTask.

Variable E : Env.

Lemma load_task_source_raises file_path (a : App E) e :
  audio_source E file_path = Raise e ->
  load_audio_file_task E file_path a =
  (Ok ("Error: " ++ e), log E (source_call E file_path) a).
Proof.
  unfold audio_source, source_call, load_audio_file_task, try_except, bind,
    call_subprocess_run, call_open_read, modify, lift, ret.
  rewrite lower_is_wav.
  destruct (wav_spelling _); simpl.
  - intros ->. reflexivity.
  - destruct (subprocess_run E _); [discriminate|].
    intros [= ->]. reflexivity.
Qed.

Lemma load_task_source_ok file_path (a : App E) data :
  audio_source E file_path = Ok data ->
  load_audio_file_task E file_path a =
  let a1 := log E (AcceptCall data) (log E (source_call E file_path) a) in
  match AcceptWaveform E (recognizer a) data with
  | (Raise e, r) => (Ok ("Error: " ++ e), with_recognizer E r a1)
  | (Ok false, r) => (Ok "", with_recognizer E r a1)
  | (Ok true, r) =>
      (Ok (dict_get (fst (Result E r)) "text" ""),
       with_recognizer E (snd (Result E r))
         (log E ResultCall (with_recognizer E r a1)))
  end.
Proof.
  unfold audio_source, source_call, load_audio_file_task, try_except, bind,
    call_subprocess_run, call_open_read, call_AcceptWaveform, call_Result,
    modify, lift, ret.
  rewrite lower_is_wav.
  destruct (wav_spelling _); simpl.
  - intros ->. simpl.
    destruct (AcceptWaveform E (recognizer a) data) as [[[|]|e] r]; simpl;
      try reflexivity.
    destruct (Result E r); reflexivity.
  - destruct (subprocess_run E _) as [process|]; [|discriminate].
    intros [= <-]. simpl.
    destruct (AcceptWaveform E (recognizer a) (stdout process)) as [[[|]|e] r];
      simpl; try reflexivity.
    destruct (Result E r); reflexivity.
Qed.

(** The task never raises: it always returns a string. *)
Lemma load_task_returns file_path (a : App E) :
  exists text, fst (load_audio_file_task E file_path a) = Ok text.
Proof.
  destruct (audio_source E file_path) as [data|e] eqn:Hsrc.
  - rewrite (load_task_source_ok _ _ _ Hsrc). cbv zeta.
    destruct (AcceptWaveform E (recognizer a) data) as [[[|]|e] r]; simpl; eauto.
  - rewrite (load_task_source_raises _ _ _ Hsrc). simpl. eauto.
Qed.

End FileTask.

(** ** The file transcription pipeline *)

Lemma subprocess_calls_app t u :
  subprocess_calls (t ++ u) = (subprocess_calls t ++ subprocess_calls u)%list.
Proof. apply flat_map_app. Qed.

Lemma open_calls_app t u :
  open_calls (t ++ u) = (open_calls t ++ open_calls u)%list.
Proof. apply flat_map_app. Qed.

Lemma accept_calls_app t u :
  accept_calls (t ++ u) = (accept_calls t ++ accept_calls u)%list.
Proof. apply flat_map_app. Qed.

Ltac split_calls :=
  repeat (rewrite ?subprocess_calls_app, ?open_calls_app, ?accept_calls_app,
            <- ?app_assoc; simpl).

(** The calls of the task, by what [splitext] returns for the path: ffmpeg
    exactly when the second component is not a spelling of [.wav], with the
    arguments for 16000 Hz, one channel, wav on standard output; otherwise
    the file is opened and its bytes reach the recognizer as they were
    read. *)
Theorem transcoder_iff_not_wav (E : Env) (file_path : string) (a : App E) :
  let a' := snd (load_audio_file_task E file_path a) in
  let wav := wav_spelling (snd (splitext E file_path)) in
  let argv := ["ffmpeg"; "-i"; file_path; "-ar"; "16000"; "-ac"; "1";
               "-f"; "wav"; "pipe:1"] in
  subprocess_calls (trace a') =
    (subprocess_calls (trace a) ++ if wav then [] else [argv])%list
  /\ open_calls (trace a') =
    (open_calls (trace a) ++ if wav then [file_path] else [])%list
  /\ accept_calls (trace a') =
    (accept_calls (trace a) ++
     if wav
     then match open_read E file_path with Ok d => [d] | Raise _ => [] end
     else match subprocess_run E argv with
          | Ok process => [stdout process]
          | Raise _ => []
          end)%list.
Proof.
  cbv zeta.
  destruct (audio_source E file_path) as [data|e] eqn:Hsrc.
  - rewrite (load_task_source_ok _ _ _ _ Hsrc). cbv zeta.
    unfold audio_source in Hsrc. unfold source_call.
    change (ffmpeg_args file_path) with
      ["ffmpeg"; "-i"; file_path; "-ar"; "16000"; "-ac"; "1"; "-f"; "wav"; "pipe:1"]
      in Hsrc.
    destruct (wav_spelling _).
    + rewrite Hsrc.
      destruct (AcceptWaveform E (recognizer a) data) as [[[|]|e] r]; simpl;
        split_calls; rewrite ?app_nil_r; auto.
    + destruct (subprocess_run E _) as [process|]; [|discriminate].
      injection Hsrc as <-.
      destruct (AcceptWaveform E (recognizer a) (stdout process)) as [[[|]|e] r];
        simpl; split_calls; rewrite ?app_nil_r; auto.
  - rewrite (load_task_source_raises _ _ _ _ Hsrc).
    unfold audio_source in Hsrc. unfold source_call.
    change (ffmpeg_args file_path) with
      ["ffmpeg"; "-i"; file_path; "-ar"; "16000"; "-ac"; "1"; "-f"; "wav"; "pipe:1"]
      in Hsrc.
    destruct (wav_spelling _).
    + rewrite Hsrc. simpl. split_calls. rewrite ?app_nil_r. auto.
    + destruct (subprocess_run E _) as [process|]; [discriminate|].
      simpl. split_calls. rewrite ?app_nil_r. auto.
Qed.




(** C7, as the code has it: when ffmpeg cannot be started the task returns
    the error message and the recognizer is not called; when ffmpeg ran, its
    standard output is what the recognizer receives, whatever the exit
    status. *)
Theorem transcoder_failure_is_launch_failure
  (E : Env) (file_path : string) (a : App E) :
  wav_spelling (snd (splitext E file_path)) = false ->
  let out := load_audio_file_task E file_path a in
  match subprocess_run E (ffmpeg_args file_path) with
  | Raise e =>
      fst out = Ok ("Error: " ++ e)
      /\ trace (snd out) = (trace a ++ [SubprocessRun (ffmpeg_args file_path)])%list
  | Ok process =>
      accept_calls (trace (snd out)) =
      (accept_calls (trace a) ++ [stdout process])%list
  end.
Proof.
  intros Hwav. cbv zeta.
  destruct (subprocess_run E (ffmpeg_args file_path)) as [process|e] eqn:Hrun.
  - assert (Hsrc : audio_source E file_path = Ok (stdout process)).
    { unfold audio_source. now rewrite Hwav, Hrun. }
    rewrite (load_task_source_ok _ _ _ _ Hsrc). cbv zeta.
    unfold source_call. rewrite Hwav.
    destruct (AcceptWaveform E (recognizer a) (stdout process)) as [[[|]|e] r];
      simpl; split_calls; reflexivity.
  - assert (Hsrc : audio_source E file_path = Raise e).
    { unfold audio_source. now rewrite Hwav, Hrun. }
    rewrite (load_task_source_raises _ _ _ _ Hsrc). unfold source_call.
    rewrite Hwav. split; reflexivity.
Qed.

Lemma transcoder_failure_is_launch_failure_witness :
  let out := load_audio_file_task (Demo.world true false) "talk.mp3"
               (new_app (Demo.world true false)) in
  fst out = Ok "Error: [Errno 2] No such file or directory: 'ffmpeg'"
  /\ trace (snd out) = [SubprocessRun (ffmpeg_args "talk.mp3")].
Proof.
  exact (transcoder_failure_is_launch_failure (Demo.world true false)
           "talk.mp3" (new_app (Demo.world true false)) eq_refl).
Defined.

(** C7 as stated fails: in [Demo] ffmpeg exits with status 1 and writes
    nothing; the empty buffer is fed to the recognizer and the empty
    transcript is shown as a success. *)
Lemma failed_transcode_is_not_an_error :
  let E := Demo.env in
  let out := load_audio_file_task E "talk.mp3" (new_app E) in
  let shown := run E (new_app E) [ClickLoad "talk.mp3"; Sched 0 (Ok []); RunAfter] in
  subprocess_run E (ffmpeg_args "talk.mp3") = Ok {| returncode := 1; stdout := [] |}
  /\ fst out = Ok ""
  /\ trace (snd out) = [SubprocessRun (ffmpeg_args "talk.mp3"); AcceptCall []]
  /\ text_box shown = ""
  /\ trace shown = [SubprocessRun (ffmpeg_args "talk.mp3"); AcceptCall []].
Proof. repeat split. Qed.




(** ** Threads and the main loop *)

Section Scheduling.

Variable E : Env.

(** Scheduling the thread that [run_in_thread] has just created. *)
Lemma sched_worker_just_started (a : App E) func callback device :
  step E (run_in_thread E func callback a) (Sched (length (threads a)) device) =
  let (t', a') := thread_step E (Worker func callback) device
                    (run_in_thread E func callback a) in
  with_threads E (replace_thread (threads a') (length (threads a)) t') a'.
Proof.
  unfold step, run_in_thread at 1. simpl threads at 1.
  now rewrite nth_error_last.
Qed.

Lemma load_audio_file_spawns file_path (a : App E) :
  file_path <> "" ->
  load_audio_file E file_path a =
  run_in_thread E (LoadTask file_path) (Some LoadOnComplete)
    (with_text_box E "Processing audio file..." a).
Proof.
  intros Hne. unfold load_audio_file.
  destruct file_path; [contradiction|reflexivity].
Qed.

(** The worker of a file task always hands one result to the main loop. *)
Lemma load_worker_queues_one_result file_path (a : App E) device :
  exists text,
    thread_step E (Worker (LoadTask file_path) (Some LoadOnComplete)) device a =
    (None,
     with_after_queue E (after_queue (snd (load_audio_file_task E file_path a))
                           ++ [(LoadOnComplete, Text text)])
       (snd (load_audio_file_task E file_path a)))
    /\ fst (load_audio_file_task E file_path a) = Ok text.
Proof.
  destruct (load_task_returns E file_path a) as [text Htext].
  exists text. split; [|exact Htext].
  unfold thread_step, worker, call_func, bind, root_after, modify, ret.
  destruct (load_audio_file_task E file_path a) as [res a']. simpl in *.
  subst res. reflexivity.
Qed.

End Scheduling.

(** C9: the completion handler of a file task looks only at whether the
    string it receives starts with ["Error:"].  So when a file is recognised
    and its transcript starts with ["Error:"], the transcript is shown in an
    error dialog and the input pane keeps ["Processing audio file..."]. *)
Theorem transcript_with_error_prefix_is_reported_as_error
  (E : Env) (file_path : string) (a : App E) (data : bytes) (r : rstate E)
  (text : string) (device : result bytes) :
  file_path <> "" ->
  after_queue a = [] ->
  audio_source E file_path = Ok data ->
  AcceptWaveform E (recognizer a) data = (Ok true, r) ->
  dict_get (fst (Result E r)) "text" "" = text ->
  prefix "Error:" text = true ->
  let a' := run E a [ClickLoad file_path; Sched (length (threads a)) device;
                     RunAfter] in
  fst (load_audio_file_task E file_path
         (load_audio_file E file_path a)) = Ok text
  /\ text_box a' = "Processing audio file..."
  /\ trace a' =
     (trace a ++ [source_call E file_path; AcceptCall data; ResultCall;
                  ShowError "Error" text])%list
  /\ (forall (t : string) (b : App E),
        load_audio_file_on_complete E t b =
        if prefix "Error:" t then log E (ShowError "Error" t) b
        else with_text_box E t b).
Proof.
  intros Hne Hq Hsrc Hacc Htext Hpre. cbv zeta.
  unfold run. cbn [fold_left].
  change (step E a (ClickLoad file_path)) with (load_audio_file E file_path a).
  rewrite (load_audio_file_spawns E file_path a Hne).
  set (b := with_text_box E "Processing audio file..." a).
  change (threads a) with (threads b).
  rewrite sched_worker_just_started.
  unfold thread_step, worker, call_func, bind, root_after, modify, ret.
  rewrite (load_task_source_ok _ _ _ _ Hsrc). cbv zeta.
  change (recognizer (run_in_thread E (LoadTask file_path) (Some LoadOnComplete) b))
    with (recognizer a).
  rewrite Hacc, Htext. cbn. rewrite Hq. cbn.
  unfold load_audio_file_on_complete. rewrite Hpre. cbn.
  repeat split. now rewrite <- !app_assoc.
Qed.

Lemma transcript_with_error_prefix_is_reported_as_error_witness :
  let E := Demo.env in
  let a' := run E (new_app E) [ClickLoad "err.wav"; Sched 0 (Ok []); RunAfter] in
  text_box a' = "Processing audio file..."
  /\ trace a' = [OpenRead "err.wav"; AcceptCall (Demo.audio "Error: none");
                 ResultCall; ShowError "Error" "Error: none"].
Proof.
  pose proof (transcript_with_error_prefix_is_reported_as_error Demo.env
                "err.wav" (new_app Demo.env) (Demo.audio "Error: none")
                (Demo.audio "Error: none") "Error: none" (Ok [])
                ltac:(discriminate) eq_refl eq_refl eq_refl eq_refl eq_refl)
    as (_ & Hbox & Htrace & _).
  split; [exact Hbox | exact Htrace].
Defined.

(** ** The grammar review pipeline *)

Section GrammarReview.

Variable E : Env.

Lemma submit_text_empty (a : App E) :
  all_space (text_box a) = true ->
  submit_text E a = log E (ShowWarning "No Content" "The input box is empty.") a.
Proof.
  intros Hsp. unfold submit_text.
  apply strip_get_empty_iff in Hsp. now rewrite Hsp.
Qed.

Lemma submit_text_spawns (a : App E) raw_text :
  strip (Text_get (text_box a)) = raw_text ->
  raw_text <> "" ->
  submit_text E a =
  run_in_thread E (SubmitTask raw_text) (Some SubmitOnComplete)
    (with_placeholder_box E "Checking grammar..." a).
Proof.
  intros Hraw Hne. unfold submit_text. rewrite Hraw.
  destruct raw_text; [contradiction|reflexivity].
Qed.

Lemma submit_task_check_raises raw_text (a : App E) e :
  tool_check E raw_text = Raise e ->
  submit_text_task E raw_text a = (Raise e, log E (CheckCall raw_text) a).
Proof.
  intros Hc.
  unfold submit_text_task, bind, call_check, modify, lift. simpl.
  now rewrite Hc.
Qed.

Lemma submit_task_clean raw_text (a : App E) :
  tool_check E raw_text = Ok [] ->
  submit_text_task E raw_text a =
  (Ok (Review [] None raw_text), log E (CheckCall raw_text) a).
Proof.
  intros Hc.
  unfold submit_text_task, bind, call_check, modify, lift. simpl.
  now rewrite Hc.
Qed.

Lemma submit_task_issues raw_text (a : App E) m matches corrected :
  tool_check E raw_text = Ok (m :: matches) ->
  tool_correct E raw_text = Ok corrected ->
  submit_text_task E raw_text a =
  (Ok (Review (m :: matches) (Some corrected) raw_text),
   log E (CorrectCall raw_text) (log E (CheckCall raw_text) a)).
Proof.
  intros Hc Hr.
  unfold submit_text_task, bind, call_check, call_correct, modify, lift. simpl.
  rewrite Hc. simpl. now rewrite Hr.
Qed.

End GrammarReview.

(** C4: when the input pane is empty or holds only whitespace, [submit_text]
    shows the "No Content" warning and does nothing else: no thread is
    created, nothing is queued for the main loop, the output pane is left as
    it was, and the trace gains no call to the grammar engine. *)
Theorem blank_input_schedules_nothing (E : Env) (a : App E) :
  all_space (text_box a) = true ->
  let a' := submit_text E a in
  threads a' = threads a
  /\ after_queue a' = after_queue a
  /\ placeholder_box a' = placeholder_box a
  /\ trace a' =
     (trace a ++ [ShowWarning "No Content" "The input box is empty."])%list
  /\ filter is_engine_call (trace a') = filter is_engine_call (trace a).
Proof.
  intros Hsp. cbv zeta. rewrite (submit_text_empty E a Hsp).
  repeat split. simpl. rewrite filter_app. simpl. apply app_nil_r.
Qed.

Lemma blank_input_schedules_nothing_witness :
  let E := Demo.env in
  let a := with_text_box E "  " (new_app E) in
  threads (submit_text E a) = []
  /\ trace (submit_text E a) = [ShowWarning "No Content" "The input box is empty."].
Proof.
  pose proof (blank_input_schedules_nothing Demo.env
                (with_text_box Demo.env "  " (new_app Demo.env)) eq_refl)
    as (Hth & _ & _ & Htr & _).
  split; [exact Hth | exact Htr].
Defined.

(** C5: for a pane whose stripped text [raw_text] is not empty, one review
    (submit, the worker runs, the main loop runs the callback) calls [check]
    on [raw_text]; with no match the output pane shows ["CORRECT"] and
    [correct] is not called; with a match, [correct] is called on the same
    [raw_text] and the output pane shows what it returned. *)
Theorem review_is_clean_or_corrected
  (E : Env) (a : App E) (raw_text : string) (matches : list (Match E))
  (corrected : string) (device : result bytes) :
  strip (Text_get (text_box a)) = raw_text ->
  raw_text <> "" ->
  after_queue a = [] ->
  tool_check E raw_text = Ok matches ->
  (matches <> [] -> tool_correct E raw_text = Ok corrected) ->
  let a' := run E a [ClickSubmit; Sched (length (threads a)) device; RunAfter] in
  placeholder_box a' =
    match matches with [] => "CORRECT" | _ :: _ => corrected end
  /\ trace a' =
     (trace a ++ CheckCall raw_text ::
      match matches with [] => [] | _ :: _ => [CorrectCall raw_text] end)%list.
Proof.
  intros Hraw Hne Hq Hcheck Hcorrect. cbv zeta.
  unfold run. cbn [fold_left].
  change (step E a ClickSubmit) with (submit_text E a).
  rewrite (submit_text_spawns E a raw_text Hraw Hne).
  set (b := with_placeholder_box E "Checking grammar..." a).
  change (threads a) with (threads b).
  rewrite sched_worker_just_started.
  unfold thread_step, worker, call_func, bind, root_after, modify, ret.
  destruct matches as [|m matches].
  - rewrite (submit_task_clean E raw_text _ Hcheck). cbn.
    rewrite Hq. cbn. split; reflexivity.
  - rewrite (submit_task_issues E raw_text _ m matches corrected Hcheck
               (Hcorrect ltac:(discriminate))).
    cbn. rewrite Hq. cbn. split; [reflexivity|].
    now rewrite <- !app_assoc.
Qed.

Lemma review_is_clean_or_corrected_witness :
  let E := Demo.env in
  let a := with_text_box E " teh cat " (new_app E) in
  let a' := run E a [ClickSubmit; Sched 0 (Ok []); RunAfter] in
  placeholder_box a' = "the cat"
  /\ trace a' = [CheckCall "teh cat"; CorrectCall "teh cat"].
Proof.
  exact (review_is_clean_or_corrected Demo.env
           (with_text_box Demo.env " teh cat " (new_app Demo.env))
           "teh cat" [0%nat] "the cat" (Ok [])
           eq_refl ltac:(discriminate) eq_refl eq_refl (fun _ => eq_refl)).
Defined.

(** C3 at a failing input: the LanguageTool server is down and the pane holds
    ["teh cat"].  [check] raises inside the worker, nothing catches it, the
    thread ends and no callback is queued: the main loop receives no outcome
    and the output pane stays at ["Checking grammar..."]. *)
Theorem grammar_task_error_escapes :
  let E := Demo.world false true in
  let a := with_text_box E "teh cat" (new_app E) in
  let a1 := run E a [ClickSubmit; Sched 0 (Ok [])] in
  let a2 := run E a1 [RunAfter] in
  fst (submit_text_task E "teh cat" (submit_text E a))
    = Raise "LanguageTool server is not running"
  /\ threads a1 = [] /\ after_queue a1 = []
  /\ trace a1 = [CheckCall "teh cat"; Uncaught "LanguageTool server is not running"]
  /\ a2 = a1
  /\ placeholder_box a2 = "Checking grammar...".
Proof. repeat split. Qed.

(** The file task does catch: whatever the file system, ffmpeg or the
    recognizer do, its worker queues one callback carrying a string. *)
Lemma file_task_one_outcome (E : Env) (file_path : string) (a : App E)
  (device : result bytes) :
  file_path <> "" ->
  let a1 := run E a [ClickLoad file_path; Sched (length (threads a)) device] in
  threads a1 = threads a
  /\ exists text, after_queue a1 = (after_queue a ++ [(LoadOnComplete, Text text)])%list.
Proof.
  intros Hne. cbv zeta. unfold run. cbn [fold_left].
  change (step E a (ClickLoad file_path)) with (load_audio_file E file_path a).
  rewrite (load_audio_file_spawns E file_path a Hne).
  set (b := with_text_box E "Processing audio file..." a).
  change (threads a) with (threads b).
  rewrite sched_worker_just_started.
  destruct (load_worker_queues_one_result E file_path
              (run_in_thread E (LoadTask file_path) (Some LoadOnComplete) b) device)
    as (text & Hstep & _).
  rewrite Hstep. clear Hstep.
  set (c := run_in_thread E (LoadTask file_path) (Some LoadOnComplete) b).
  assert (Hsame : threads (snd (load_audio_file_task E file_path c)) = threads c
                  /\ after_queue (snd (load_audio_file_task E file_path c)) = after_queue c).
  { destruct (audio_source E file_path) as [data|e] eqn:Hsrc.
    - rewrite (load_task_source_ok _ _ _ _ Hsrc). cbv zeta.
      destruct (AcceptWaveform E (recognizer c) data) as [[[|]|e] r]; split; reflexivity.
    - rewrite (load_task_source_raises _ _ _ _ Hsrc). split; reflexivity. }
  destruct Hsame as [Hth Hq]. cbn. rewrite Hth, Hq. cbn.
  rewrite replace_thread_last. split; [apply app_nil_r|].
  exists text. reflexivity.
Qed.

(** ** Push-to-talk *)

(** C10: whatever the two panes held, starting a recording leaves the output
    pane empty and the input pane holding only the recording notice; both are
    emptied by [reset_app] before the notice is inserted. *)
Theorem start_recording_clears_both_panes (E : Env) (a : App E) :
  let cleared := reset_app E (with_record_label E ("sunken", "red")
                                (with_is_recording E true a)) in
  let a' := start_walkie_talkie_recording E a in
  text_box cleared = "" /\ placeholder_box cleared = ""
  /\ a' = with_threads E (threads a ++ [RecordMicrophone MicOpen])
            (with_text_box E "Recording... Speak now." cleared)
  /\ text_box a' = "Recording... Speak now."
  /\ placeholder_box a' = "".
Proof. repeat split. Qed.

Section Capture.

Variable E : Env.

Lemma run_app (a : App E) evs1 evs2 :
  run E a (evs1 ++ evs2) = run E (run E a evs1) evs2.
Proof. apply fold_left_app. Qed.

Lemma run_cons (a : App E) ev evs :
  run E a (ev :: evs) = run E (step E a ev) evs.
Proof. reflexivity. Qed.

(** One iteration of the capture loop by the thread that follows [l]. *)
Lemma capture_iteration (b : App E) l data flag r :
  threads b = (l ++ [RecordMicrophone MicLoop])%list ->
  is_recording b = true ->
  AcceptWaveform E (recognizer b) data = (Ok flag, r) ->
  let b' := step E b (Sched (length l) (Ok data)) in
  threads b' = threads b
  /\ is_recording b' = true
  /\ audio_data b' = (audio_data b ++ data)%list
  /\ recognizer b' = r
  /\ text_box b' = text_box b
  /\ placeholder_box b' = placeholder_box b.
Proof.
  intros Hth Hrec Hacc. cbv zeta.
  unfold step. rewrite Hth, nth_error_last.
  unfold thread_step, record_microphone_loop. rewrite Hrec.
  unfold bind, modify, lift, call_AcceptWaveform, ret. cbn.
  rewrite Hacc. cbn. rewrite Hth, replace_thread_last.
  repeat split. exact Hrec.
Qed.

(** The loop over the chunks of a session. *)
Lemma capture_loop chunks : forall (b : App E) l r,
  threads b = (l ++ [RecordMicrophone MicLoop])%list ->
  is_recording b = true ->
  feed E (recognizer b) chunks = Some r ->
  let b' := run E b (map (fun c => Sched (length l) (Ok c)) chunks) in
  threads b' = threads b
  /\ is_recording b' = true
  /\ audio_data b' = (audio_data b ++ concat chunks)%list
  /\ recognizer b' = r
  /\ placeholder_box b' = placeholder_box b.
Proof.
  induction chunks as [|c chunks IH]; intros b l r Hth Hrec Hfeed; cbv zeta.
  - simpl in *. injection Hfeed as <-. rewrite app_nil_r. repeat split; auto.
  - simpl in Hfeed.
    destruct (AcceptWaveform E (recognizer b) c) as [[flag|e] r1] eqn:Hacc;
      [|discriminate].
    destruct (capture_iteration b l c flag r1 Hth Hrec Hacc)
      as (Hth1 & Hrec1 & Haud1 & Hr1 & _ & Hph1).
    simpl map. rewrite run_cons.
    set (b1 := step E b (Sched (length l) (Ok c))) in *.
    rewrite <- Hr1 in Hfeed. rewrite Hth in Hth1.
    destruct (IH b1 l r Hth1 Hrec1 Hfeed) as (Hth2 & Hrec2 & Haud2 & Hr2 & Hph2).
    repeat split.
    + now rewrite Hth2, Hth1.
    + exact Hrec2.
    + rewrite Haud2, Haud1. simpl. now rewrite <- app_assoc.
    + exact Hr2.
    + now rewrite Hph2.
Qed.

(** Press, then the new thread opens the device. *)
Lemma capture_start (a : App E) :
  let b := run E a [ButtonPress; Sched (length (threads a)) (Ok [])] in
  threads b = (threads a ++ [RecordMicrophone MicLoop])%list
  /\ is_recording b = true
  /\ audio_data b = []
  /\ recognizer b = recognizer a
  /\ placeholder_box b = "".
Proof.
  cbv zeta. unfold run. cbn [fold_left].
  change (step E a ButtonPress) with (start_walkie_talkie_recording E a).
  unfold start_walkie_talkie_recording, step. cbn.
  rewrite nth_error_last. cbn. rewrite replace_thread_last.
  repeat split.
Qed.

(** Release, then the thread sees the flag down and finishes. *)
Lemma capture_stop (b : App E) l :
  threads b = (l ++ [RecordMicrophone MicLoop])%list ->
  let b' := run E b [ButtonRelease; Sched (length l) (Ok [])] in
  threads b' = l
  /\ is_recording b' = false
  /\ audio_data b' = audio_data b
  /\ text_box b' = dict_get (fst (FinalResult E (recognizer b))) "text" ""
  /\ placeholder_box b' = placeholder_box b.
Proof.
  intros Hth. cbv zeta. unfold run. cbn [fold_left].
  change (step E b ButtonRelease) with (stop_walkie_talkie_recording E b).
  unfold stop_walkie_talkie_recording, step. cbn.
  rewrite Hth, nth_error_last.
  unfold thread_step, record_microphone_loop, bind, modify, call_FinalResult, ret.
  cbn. destruct (FinalResult E (recognizer b)) as [d r]. cbn.
  rewrite Hth, replace_thread_last, app_nil_r.
  repeat split.
Qed.

End Capture.

(** C1, as the code has it: the buffer is emptied when a capture starts, by
    the capture thread before its first read, and never when it stops.  For a
    whole session (press, the chunks are read and accepted, release, the
    thread finishes) started with no capture thread alive, the buffer is
    empty once the device is open, and when the session is back to [Idle] it
    holds the chunks of that session in capture order; the input pane shows
    the text of [FinalResult()]. *)
Theorem buffer_holds_the_session_audio
  (E : Env) (a : App E) (chunks : list bytes) (r : rstate E) :
  existsb is_mic (threads a) = false ->
  feed E (recognizer a) chunks = Some r ->
  let tid := length (threads a) in
  let opened := run E a [ButtonPress; Sched tid (Ok [])] in
  let a' := run E a (session tid chunks) in
  session_status opened = Capturing
  /\ audio_data opened = []
  /\ session_status a' = Idle
  /\ audio_data a' = concat chunks
  /\ text_box a' = dict_get (fst (FinalResult E r)) "text" "".
Proof.
  intros Hmic Hfeed. cbv zeta.
  destruct (capture_start E a) as (Hth0 & Hrec0 & Haud0 & Hr0 & _).
  set (b := run E a [ButtonPress; Sched (length (threads a)) (Ok [])]) in *.
  rewrite <- Hr0 in Hfeed.
  destruct (capture_loop E chunks b (threads a) r Hth0 Hrec0 Hfeed)
    as (Hth1 & Hrec1 & Haud1 & Hr1 & _).
  set (c := run E b (map (fun c => Sched (length (threads a)) (Ok c)) chunks)) in *.
  rewrite Hth0 in Hth1.
  destruct (capture_stop E c (threads a) Hth1) as (Hth2 & Hrec2 & Haud2 & Htxt2 & _).
  assert (Hrun : run E a (session (length (threads a)) chunks) =
                 run E c [ButtonRelease; Sched (length (threads a)) (Ok [])]).
  { unfold session.
    change (ButtonPress :: Sched (length (threads a)) (Ok []) ::
            map (fun c => Sched (length (threads a)) (Ok c)) chunks ++
            [ButtonRelease; Sched (length (threads a)) (Ok [])])%list
      with ([ButtonPress; Sched (length (threads a)) (Ok [])] ++
            map (fun c => Sched (length (threads a)) (Ok c)) chunks ++
            [ButtonRelease; Sched (length (threads a)) (Ok [])])%list.
    now rewrite !run_app. }
  rewrite Hrun. repeat split.
  - unfold session_status. now rewrite Hrec0.
  - exact Haud0.
  - unfold session_status. now rewrite Hrec2, Hth2, Hmic.
  - now rewrite Haud2, Haud1, Haud0.
  - now rewrite Htxt2, Hr1.
Qed.

Lemma buffer_holds_the_session_audio_witness :
  let E := Demo.env in
  let a' := run E (new_app E) (session 0 [Demo.audio "he"; Demo.audio "llo"]) in
  session_status a' = Idle
  /\ audio_data a' = Demo.audio "hello"
  /\ text_box a' = "hello".
Proof.
  pose proof (buffer_holds_the_session_audio Demo.env (new_app Demo.env)
                [Demo.audio "he"; Demo.audio "llo"] (Demo.audio "hello")
                eq_refl eq_refl)
    as (_ & _ & Hidle & Haudio & Htext).
  exact (conj Hidle (conj Haudio Htext)).
Defined.

(** C1 as stated fails: after a session that captured two bytes the
    application is back to [Idle] with the two bytes still in the buffer, so
    the buffer is not empty in every reachable [Idle] state. *)
Lemma idle_with_audio_in_the_buffer :
  let E := Demo.env in
  let a := run E (new_app E) (session 0 [Demo.audio "hi"]) in
  reachable a
  /\ session_status a = Idle
  /\ audio_data a = Demo.audio "hi"
  /\ ~ (forall b : App E,
          reachable b -> session_status b = Idle -> audio_data b = []).
Proof.
  cbv zeta. repeat split.
  - exists (session 0 [Demo.audio "hi"]). reflexivity.
  - intros Hinv.
    specialize (Hinv (run Demo.env (new_app Demo.env) (session 0 [Demo.audio "hi"]))).
    assert (Hreach : reachable (run Demo.env (new_app Demo.env)
                                  (session 0 [Demo.audio "hi"])))
      by (exists (session 0 [Demo.audio "hi"]); reflexivity).
    specialize (Hinv Hreach eq_refl). discriminate Hinv.
Qed.

(** ** Further properties of the file transcription pipeline *)

Section FileRuns.

Variable E : Env.

(** Loading a file, up to the callback: the state after the worker ran and
    what the main loop then does with the string the task returned. *)
Lemma load_once_run file_path (a : App E) device :
  file_path <> "" ->
  after_queue a = [] ->
  let b := load_audio_file E file_path a in
  let out := load_audio_file_task E file_path b in
  exists text,
    fst out = Ok text
    /\ run E a (load_once file_path (length (threads a)) device) =
       load_audio_file_on_complete E text
         (with_after_queue E [] (with_threads E (threads a) (snd out))).
Proof.
  intros Hne Hq. cbv zeta. unfold load_once, run. cbn [fold_left].
  change (step E a (ClickLoad file_path)) with (load_audio_file E file_path a).
  rewrite (load_audio_file_spawns E file_path a Hne).
  set (b := with_text_box E "Processing audio file..." a).
  change (threads a) with (threads b).
  rewrite sched_worker_just_started.
  set (c := run_in_thread E (LoadTask file_path) (Some LoadOnComplete) b).
  destruct (load_worker_queues_one_result E file_path c device)
    as (text & Hstep & Htext).
  rewrite Hstep. exists text. split; [exact Htext|].
  assert (Hsame : threads (snd (load_audio_file_task E file_path c)) = threads c
                  /\ after_queue (snd (load_audio_file_task E file_path c)) = []).
  { destruct (audio_source E file_path) as [data|e] eqn:Hsrc.
    - rewrite (load_task_source_ok _ _ _ _ Hsrc). cbv zeta.
      destruct (AcceptWaveform E (recognizer c) data) as [[[|]|e] r];
        split; try reflexivity; exact Hq.
    - rewrite (load_task_source_raises _ _ _ _ Hsrc).
      split; [reflexivity | exact Hq]. }
  destruct Hsame as [Hth Hqq].
  cbn. rewrite Hth, Hqq. cbn. rewrite replace_thread_last, app_nil_r.
  reflexivity.
Qed.

End FileRuns.

(** Extra (file task, errors): whatever raises inside the task (reading the
    file, launching ffmpeg, [AcceptWaveform]), the user gets exactly one
    dialog, an error dialog titled "Error" whose message is ["Error: "]
    followed by the exception's text, after the calls the task made (the
    read or ffmpeg, then [AcceptWaveform] if the bytes were obtained); the
    input pane keeps the processing notice, the worker is gone and nothing is
    left in the queue. *)
Theorem file_task_exception_is_reported
  (E : Env) (file_path : string) (a : App E) (device : result bytes)
  (e : string) :
  file_path <> "" ->
  after_queue a = [] ->
  file_task_exception E (recognizer a) file_path = Some e ->
  let a' := run E a (load_once file_path (length (threads a)) device) in
  text_box a' = "Processing audio file..."
  /\ placeholder_box a' = placeholder_box a
  /\ threads a' = threads a
  /\ after_queue a' = []
  /\ trace a' =
     (trace a ++
      source_call E file_path ::
      match audio_source E file_path with
      | Ok data => [AcceptCall data]
      | Raise _ => []
      end ++
      [ShowError "Error" ("Error: " ++ e)])%list.
Proof.
  intros Hne Hq Hexn. cbv zeta.
  destruct (load_once_run E file_path a device Hne Hq) as (text & Htext & Hrun).
  cbv zeta in Htext, Hrun. rewrite Hrun. clear Hrun.
  unfold file_task_exception in Hexn.
  set (b := load_audio_file E file_path a) in *.
  assert (Hrec : recognizer b = recognizer a).
  { unfold b. rewrite (load_audio_file_spawns E file_path a Hne). reflexivity. }
  assert (Hfields : text_box b = "Processing audio file..."
                    /\ placeholder_box b = placeholder_box a
                    /\ trace b = trace a).
  { unfold b. rewrite (load_audio_file_spawns E file_path a Hne).
    repeat split. }
  destruct Hfields as (Hbox & Hph & Htr).
  destruct (audio_source E file_path) as [data|e0] eqn:Hsrc.
  - rewrite (load_task_source_ok _ _ _ _ Hsrc) in *. cbv zeta in *.
    rewrite Hrec in *.
    destruct (AcceptWaveform E (recognizer a) data) as [[flag|e0] r];
      simpl in Hexn; [discriminate|].
    injection Hexn as ->. simpl in Htext. injection Htext as <-.
    unfold load_audio_file_on_complete. cbn.
    rewrite Hbox, Hph, Htr. repeat split.
    now rewrite <- !app_assoc.
  - injection Hexn as ->.
    rewrite (load_task_source_raises _ _ _ _ Hsrc) in *.
    simpl in Htext. injection Htext as <-.
    unfold load_audio_file_on_complete. cbn.
    rewrite Hbox, Hph, Htr. repeat split.
    now rewrite <- !app_assoc.
Qed.

Lemma file_task_exception_is_reported_witness :
  let E := Demo.env in
  let a' := run E (new_app E) (load_once "gone.wav" 0 (Ok [])) in
  text_box a' = "Processing audio file..."
  /\ trace a' =
     [OpenRead "gone.wav";
      ShowError "Error"
        "Error: [Errno 2] No such file or directory: 'gone.wav'"].
Proof.
  pose proof (file_task_exception_is_reported Demo.env "gone.wav"
                (new_app Demo.env) (Ok [])
                "[Errno 2] No such file or directory: 'gone.wav'"
                ltac:(discriminate) eq_refl eq_refl)
    as (Hbox & _ & _ & _ & Htrace).
  split; [exact Hbox | exact Htrace].
Defined.

(** Extra (file task, display): when the bytes are obtained and accepted,
    the text that replaces the processing notice is the ["text"] of
    [Result()] if [AcceptWaveform] returned true and the empty string if it
    returned false, provided it does not start with ["Error:"]; nothing is
    shown in a dialog, and when [AcceptWaveform] returned false the
    recognizer is left as that call left it, without [Result()] or
    [FinalResult()] being called. *)
Theorem file_transcript_is_shown
  (E : Env) (file_path : string) (a : App E) (device : result bytes)
  (data : bytes) (flag : bool) (r : rstate E) (text : string) :
  file_path <> "" ->
  after_queue a = [] ->
  audio_source E file_path = Ok data ->
  AcceptWaveform E (recognizer a) data = (Ok flag, r) ->
  text = (if flag then dict_get (fst (Result E r)) "text" "" else "") ->
  prefix "Error:" text = false ->
  let a' := run E a (load_once file_path (length (threads a)) device) in
  text_box a' = text
  /\ trace a' =
     (trace a ++ [source_call E file_path; AcceptCall data] ++
      if flag then [ResultCall] else [])%list
  /\ recognizer a' = (if flag then snd (Result E r) else r)
  /\ threads a' = threads a
  /\ after_queue a' = [].
Proof.
  intros Hne Hq Hsrc Hacc Htxt Hpre. cbv zeta.
  destruct (load_once_run E file_path a device Hne Hq) as (text' & Htext & Hrun).
  cbv zeta in Htext, Hrun. rewrite Hrun. clear Hrun.
  set (b := load_audio_file E file_path a) in *.
  assert (Hfields : recognizer b = recognizer a /\ trace b = trace a).
  { unfold b. rewrite (load_audio_file_spawns E file_path a Hne).
    repeat split. }
  destruct Hfields as (Hrec & Htr).
  rewrite (load_task_source_ok _ _ _ _ Hsrc) in *. cbv zeta in *.
  rewrite Hrec, Hacc in *.
  destruct flag; simpl in Htext; injection Htext as <-; subst text;
    unfold load_audio_file_on_complete; rewrite Hpre; cbn; rewrite Htr;
    rewrite <- ?app_assoc; repeat split.
Qed.

Lemma file_transcript_is_shown_witness :
  let E := Demo.env in
  let a' := run E (new_app E) (load_once "test.wav" 0 (Ok [])) in
  text_box a' = "test"
  /\ trace a' = [OpenRead "test.wav"; AcceptCall (Demo.audio "test"); ResultCall].
Proof.
  pose proof (file_transcript_is_shown Demo.env "test.wav" (new_app Demo.env)
                (Ok []) (Demo.audio "test") true (Demo.audio "test") "test"
                ltac:(discriminate) eq_refl eq_refl eq_refl eq_refl eq_refl)
    as (Hbox & Htr & _).
  split; [exact Hbox | exact Htr].
Defined.

(** ** Further properties of push-to-talk *)

Section CaptureRuns.

Variable E : Env.

Lemma nth_error_middle_thread (l : list thread) t rest :
  nth_error (l ++ t :: rest) (length l) = Some t.
Proof. induction l; simpl; auto. Qed.

Lemma replace_thread_middle l t rest r :
  replace_thread (l ++ t :: rest) (length l) r =
  (l ++ match r with Some t' => t' :: rest | None => rest end)%list.
Proof.
  induction l as [|x l IH]; simpl.
  - destruct r; reflexivity.
  - now rewrite IH.
Qed.

(** One iteration, with the trace, for a capture thread anywhere in the list
    of threads. *)
Lemma capture_iteration_trace (b : App E) l rest data flag r :
  threads b = (l ++ RecordMicrophone MicLoop :: rest)%list ->
  is_recording b = true ->
  AcceptWaveform E (recognizer b) data = (Ok flag, r) ->
  let b' := step E b (Sched (length l) (Ok data)) in
  threads b' = threads b
  /\ is_recording b' = true
  /\ audio_data b' = (audio_data b ++ data)%list
  /\ recognizer b' = r
  /\ text_box b' = text_box b
  /\ placeholder_box b' = placeholder_box b
  /\ after_queue b' = after_queue b
  /\ trace b' = (trace b ++ [StreamRead; AcceptCall data])%list.
Proof.
  intros Hth Hrec Hacc. cbv zeta.
  unfold step. rewrite Hth, nth_error_middle_thread.
  unfold thread_step, record_microphone_loop. rewrite Hrec.
  unfold bind, modify, lift, call_AcceptWaveform, ret. cbn.
  rewrite Hacc. cbn. rewrite Hth, replace_thread_middle.
  repeat split; auto. now rewrite <- app_assoc.
Qed.

Lemma capture_loop_trace chunks : forall (b : App E) l r,
  threads b = (l ++ [RecordMicrophone MicLoop])%list ->
  is_recording b = true ->
  feed E (recognizer b) chunks = Some r ->
  let b' := run E b (map (fun c => Sched (length l) (Ok c)) chunks) in
  threads b' = threads b
  /\ recognizer b' = r
  /\ after_queue b' = after_queue b
  /\ trace b' = (trace b ++ capture_calls chunks)%list.
Proof.
  induction chunks as [|c chunks IH]; intros b l r Hth Hrec Hfeed; cbv zeta.
  - simpl in *. injection Hfeed as <-. rewrite app_nil_r. repeat split.
  - simpl in Hfeed.
    destruct (AcceptWaveform E (recognizer b) c) as [[flag|e] r1] eqn:Hacc;
      [|discriminate].
    destruct (capture_iteration_trace b l [] c flag r1 Hth Hrec Hacc)
      as (Hth1 & Hrec1 & _ & Hr1 & _ & _ & Hq1 & Htr1).
    simpl map. rewrite run_cons.
    set (b1 := step E b (Sched (length l) (Ok c))) in *.
    rewrite <- Hr1 in Hfeed. rewrite Hth in Hth1.
    destruct (IH b1 l r Hth1 Hrec1 Hfeed) as (Hth2 & Hr2 & Hq2 & Htr2).
    repeat split.
    + now rewrite Hth2, Hth1.
    + exact Hr2.
    + now rewrite Hq2.
    + rewrite Htr2, Htr1. unfold capture_calls. simpl.
      now rewrite <- app_assoc.
Qed.

Lemma capture_start_trace (a : App E) :
  let b := run E a [ButtonPress; Sched (length (threads a)) (Ok [])] in
  threads b = (threads a ++ [RecordMicrophone MicLoop])%list
  /\ is_recording b = true
  /\ recognizer b = recognizer a
  /\ after_queue b = after_queue a
  /\ trace b = (trace a ++ [StreamOpen])%list.
Proof.
  cbv zeta. unfold run. cbn [fold_left].
  change (step E a ButtonPress) with (start_walkie_talkie_recording E a).
  unfold start_walkie_talkie_recording, step. cbn.
  rewrite nth_error_last. cbn. rewrite replace_thread_last.
  repeat split.
Qed.

Lemma capture_stop_trace (b : App E) l :
  threads b = (l ++ [RecordMicrophone MicLoop])%list ->
  let b' := run E b [ButtonRelease; Sched (length l) (Ok [])] in
  threads b' = l
  /\ recognizer b' = snd (FinalResult E (recognizer b))
  /\ after_queue b' = after_queue b
  /\ trace b' = (trace b ++ [StreamClose; FinalResultCall])%list.
Proof.
  intros Hth. cbv zeta. unfold run. cbn [fold_left].
  change (step E b ButtonRelease) with (stop_walkie_talkie_recording E b).
  unfold stop_walkie_talkie_recording, step. cbn.
  rewrite Hth, nth_error_last.
  unfold thread_step, record_microphone_loop, bind, modify, call_FinalResult, ret.
  cbn. destruct (FinalResult E (recognizer b)) as [d r]. cbn.
  rewrite Hth, replace_thread_last, app_nil_r.
  repeat split. now rewrite <- app_assoc.
Qed.

End CaptureRuns.

(** Extra (capture, ordering): in a session whose chunks are all read and
    accepted, the recognizer receives exactly the chunks read, once each and
    in capture order, every one right after its read; the stream is then
    closed and [FinalResult()] is called once, after the last chunk.  Nothing
    is queued for the main loop: the thread writes the pane itself. *)
Theorem session_feeds_chunks_in_order
  (E : Env) (a : App E) (chunks : list bytes) (r : rstate E) :
  feed E (recognizer a) chunks = Some r ->
  let a' := run E a (session (length (threads a)) chunks) in
  trace a' =
    (trace a ++ StreamOpen :: capture_calls chunks ++
     [StreamClose; FinalResultCall])%list
  /\ accept_calls (trace a') = (accept_calls (trace a) ++ chunks)%list
  /\ recognizer a' = snd (FinalResult E r)
  /\ threads a' = threads a
  /\ after_queue a' = after_queue a.
Proof.
  intros Hfeed. cbv zeta.
  destruct (capture_start_trace E a) as (Hth0 & Hrec0 & Hr0 & Hq0 & Htr0).
  set (b := run E a [ButtonPress; Sched (length (threads a)) (Ok [])]) in *.
  rewrite <- Hr0 in Hfeed.
  destruct (capture_loop_trace E chunks b (threads a) r Hth0 Hrec0 Hfeed)
    as (Hth1 & Hr1 & Hq1 & Htr1).
  set (c := run E b (map (fun c => Sched (length (threads a)) (Ok c)) chunks)) in *.
  rewrite Hth0 in Hth1.
  destruct (capture_stop_trace E c (threads a) Hth1) as (Hth2 & Hr2 & Hq2 & Htr2).
  assert (Hrun : run E a (session (length (threads a)) chunks) =
                 run E c [ButtonRelease; Sched (length (threads a)) (Ok [])]).
  { unfold session.
    change (ButtonPress :: Sched (length (threads a)) (Ok []) ::
            map (fun c => Sched (length (threads a)) (Ok c)) chunks ++
            [ButtonRelease; Sched (length (threads a)) (Ok [])])%list
      with ([ButtonPress; Sched (length (threads a)) (Ok [])] ++
            map (fun c => Sched (length (threads a)) (Ok c)) chunks ++
            [ButtonRelease; Sched (length (threads a)) (Ok [])])%list.
    now rewrite !run_app. }
  rewrite Hrun.
  assert (Htrace : trace (run E c [ButtonRelease; Sched (length (threads a)) (Ok [])]) =
                   (trace a ++ StreamOpen :: capture_calls chunks ++
                    [StreamClose; FinalResultCall])%list).
  { rewrite Htr2, Htr1, Htr0. rewrite <- !app_assoc. reflexivity. }
  repeat split.
  - exact Htrace.
  - rewrite Htrace. rewrite accept_calls_app. f_equal.
    simpl. rewrite accept_calls_app. simpl. rewrite app_nil_r.
    unfold capture_calls. clear. induction chunks as [|c chunks IH]; simpl.
    + reflexivity.
    + f_equal. exact IH.
  - now rewrite Hr2, Hr1.
  - exact Hth2.
  - now rewrite Hq2, Hq1, Hq0.
Qed.

Lemma session_feeds_chunks_in_order_witness :
  let E := Demo.env in
  accept_calls (trace (run E (new_app E)
                         (session 0 [Demo.audio "he"; Demo.audio "llo"]))) =
  [Demo.audio "he"; Demo.audio "llo"].
Proof.
  exact (proj1 (proj2 (session_feeds_chunks_in_order Demo.env (new_app Demo.env)
                         [Demo.audio "he"; Demo.audio "llo"]
                         (Demo.audio "hello") eq_refl))).
Defined.

(** Extra (capture, device cannot be opened): when [p.open] raises, the
    capture thread ends at once with the exception uncaught.  The recording
    flag stays up, the buffer keeps whatever it held, the recognizer is not
    touched, and the input pane keeps the recording notice: no transcript
    will replace it. *)
Theorem device_open_failure_ends_the_thread
  (E : Env) (a : App E) (message : string) :
  let a' := run E a [ButtonPress; Sched (length (threads a)) (Raise message)] in
  threads a' = threads a
  /\ is_recording a' = true
  /\ audio_data a' = audio_data a
  /\ recognizer a' = recognizer a
  /\ text_box a' = "Recording... Speak now."
  /\ trace a' = (trace a ++ [StreamOpen; Uncaught message])%list
  /\ text_box (step E a' ButtonRelease) = "Recording... Speak now."
  /\ is_recording (step E a' ButtonRelease) = false.
Proof.
  cbv zeta. unfold run. cbn [fold_left].
  change (step E a ButtonPress) with (start_walkie_talkie_recording E a).
  unfold start_walkie_talkie_recording, step. cbn.
  rewrite nth_error_last. cbn. rewrite replace_thread_last, app_nil_r.
  repeat split. now rewrite <- app_assoc.
Qed.

(** Extra (capture, error inside the loop): when [stream.read] or
    [AcceptWaveform] raises during an iteration, the capture thread ends with
    the exception uncaught: the stream is not closed, [FinalResult()] is not
    called, the input pane is not written and the recording flag stays up. *)
Theorem capture_error_skips_finalization
  (E : Env) (b : App E) (l rest : list thread) (device : result bytes)
  (message : string) :
  threads b = (l ++ RecordMicrophone MicLoop :: rest)%list ->
  is_recording b = true ->
  iteration_exception E (recognizer b) device = Some message ->
  let b' := step E b (Sched (length l) device) in
  threads b' = (l ++ rest)%list
  /\ is_recording b' = true
  /\ text_box b' = text_box b
  /\ exists calls,
       trace b' = (trace b ++ calls ++ [Uncaught message])%list
       /\ filter is_finish_call calls = [].
Proof.
  intros Hth Hrec Hexn. cbv zeta.
  unfold step. rewrite Hth, nth_error_middle_thread.
  unfold thread_step, record_microphone_loop. rewrite Hrec.
  unfold bind, modify, lift, call_AcceptWaveform, ret.
  unfold iteration_exception in Hexn.
  destruct device as [data|e]; cbn.
  - destruct (AcceptWaveform E (recognizer b) data) as [[flag|e] r];
      simpl in Hexn; [discriminate|].
    injection Hexn as ->. cbn. rewrite Hth, replace_thread_middle.
    repeat split; auto.
    exists [StreamRead; AcceptCall data]. rewrite <- !app_assoc.
    split; reflexivity.
  - injection Hexn as ->. rewrite Hth, replace_thread_middle.
    repeat split; auto.
    exists [StreamRead]. rewrite <- !app_assoc. split; reflexivity.
Qed.

Lemma capture_error_skips_finalization_witness :
  let E := Demo.env in
  let b := run E (new_app E) [ButtonPress; Sched 0 (Ok [])] in
  let b' := step E b (Sched 0 (Raise "[Errno -9981] Input overflowed")) in
  threads b' = [] /\ is_recording b' = true
  /\ text_box b' = "Recording... Speak now.".
Proof.
  pose proof (capture_error_skips_finalization Demo.env
                (run Demo.env (new_app Demo.env) [ButtonPress; Sched 0 (Ok [])])
                [] [] (Raise "[Errno -9981] Input overflowed")
                "[Errno -9981] Input overflowed" eq_refl eq_refl eq_refl)
    as (Hth & Hrec & Hbox & _).
  exact (conj Hth (conj Hrec Hbox)).
Defined.

(** Extra (capture, release then press): the loop only polls the flag.  If
    the button is released and pressed again before the capture thread tests
    the flag, that thread does not stop: it reads the next chunk and goes on,
    while a second capture thread has been started beside it. *)
Theorem quick_release_and_press_keeps_the_thread
  (E : Env) (b : App E) (l : list thread) (data : bytes) (flag : bool)
  (r : rstate E) :
  threads b = (l ++ [RecordMicrophone MicLoop])%list ->
  AcceptWaveform E (recognizer b) data = (Ok flag, r) ->
  let b' := run E b [ButtonRelease; ButtonPress; Sched (length l) (Ok data)] in
  threads b' =
    (l ++ [RecordMicrophone MicLoop; RecordMicrophone MicOpen])%list
  /\ is_recording b' = true
  /\ audio_data b' = (audio_data b ++ data)%list
  /\ trace b' = (trace b ++ [StreamRead; AcceptCall data])%list
  /\ filter is_finish_call (trace b') = filter is_finish_call (trace b).
Proof.
  intros Hth Hacc. cbv zeta.
  set (c := run E b [ButtonRelease; ButtonPress]).
  assert (Hc : threads c = (l ++ RecordMicrophone MicLoop ::
                              [RecordMicrophone MicOpen])%list
               /\ is_recording c = true
               /\ recognizer c = recognizer b
               /\ audio_data c = audio_data b
               /\ trace c = trace b).
  { unfold c, run. cbn. rewrite Hth, <- app_assoc. repeat split. }
  destruct Hc as (Hthc & Hrecc & Hrc & Haudc & Htrc).
  rewrite <- Hrc in Hacc.
  destruct (capture_iteration_trace E c l [RecordMicrophone MicOpen] data flag r
              Hthc Hrecc Hacc)
    as (Hth1 & Hrec1 & Haud1 & _ & _ & _ & _ & Htr1).
  change (run E b [ButtonRelease; ButtonPress; Sched (length l) (Ok data)])
    with (step E c (Sched (length l) (Ok data))).
  repeat split.
  - now rewrite Hth1, Hthc.
  - exact Hrec1.
  - now rewrite Haud1, Haudc.
  - now rewrite Htr1, Htrc.
  - rewrite Htr1, Htrc, filter_app. simpl. apply app_nil_r.
Qed.

Lemma quick_release_and_press_keeps_the_thread_witness :
  let E := Demo.env in
  let b := run E (new_app E) [ButtonPress; Sched 0 (Ok [])] in
  let b' := run E b [ButtonRelease; ButtonPress; Sched 0 (Ok (Demo.audio "hi"))] in
  threads b' = [RecordMicrophone MicLoop; RecordMicrophone MicOpen]
  /\ is_recording b' = true
  /\ audio_data b' = Demo.audio "hi".
Proof.
  pose proof (quick_release_and_press_keeps_the_thread Demo.env
                (run Demo.env (new_app Demo.env) [ButtonPress; Sched 0 (Ok [])])
                [] (Demo.audio "hi") false (Demo.audio "hi") eq_refl eq_refl)
    as (Hth & Hrec & Haud & _).
  exact (conj Hth (conj Hrec Haud)).
Defined.

(** ** Invariants of the application *)

Lemma rstrip_idempotent s : rstrip (rstrip s) = rstrip s.
Proof.
  induction s as [|c s IH]; simpl; [reflexivity|].
  destruct (rstrip s) as [|d t] eqn:Hr.
  - destruct (isspace c) eqn:Hc; simpl; [reflexivity|]. now rewrite Hc.
  - simpl. simpl in IH. now rewrite IH.
Qed.

Lemma lstrip_head s :
  lstrip s = "" \/ exists c t, lstrip s = String c t /\ isspace c = false.
Proof.
  induction s as [|c s IH]; simpl; [now left|].
  destruct (isspace c) eqn:Hc; [exact IH|].
  right. now exists c, s.
Qed.

(** [strip] leaves a stripped string as it is. *)
Lemma strip_idempotent s : strip (strip s) = strip s.
Proof.
  unfold strip.
  destruct (lstrip_head s) as [H | (c & t & H & Hc)]; rewrite H.
  - reflexivity.
  - assert (Hl : lstrip (rstrip (String c t)) = rstrip (String c t)).
    { simpl. destruct (rstrip t); rewrite ?Hc; simpl; now rewrite Hc. }
    rewrite Hl. apply rstrip_idempotent.
Qed.

Section Invariant.

Variable E : Env.

Lemma run_snoc (a : App E) evs ev :
  run E a (evs ++ [ev]) = step E (run E a evs) ev.
Proof. unfold run. now rewrite fold_left_app. Qed.

(** Induction over the events that lead to a reachable state. *)
Lemma reachable_ind (P : App E -> Prop) :
  P (new_app E) ->
  (forall a ev, reachable a -> P a -> P (step E a ev)) ->
  forall a, reachable a -> P a.
Proof.
  intros Hnew Hstep a [evs <-].
  induction evs as [|ev evs IH] using rev_ind.
  - exact Hnew.
  - rewrite run_snoc. apply Hstep; [now exists evs | exact IH].
Qed.

Lemma replace_thread_ok l : forall tid t,
  Forall thread_ok l ->
  match t with Some t' => thread_ok t' | None => True end ->
  Forall thread_ok (replace_thread l tid t).
Proof.
  induction l as [|x l IH]; intros tid t Hl Ht; simpl.
  - destruct tid; constructor.
  - inversion Hl as [|? ? Hx Hl']; subst.
    destruct tid as [|tid].
    + destruct t; [constructor|]; assumption.
    + constructor; [assumption|]. now apply IH.
Qed.

Lemma source_call_ok file_path :
  file_path <> "" -> effect_ok E (source_call E file_path).
Proof.
  intros Hne. unfold source_call.
  destruct (wav_spelling _) eqn:Hwav; simpl.
  - now split.
  - exists file_path. repeat split; assumption.
Qed.

Ltac forall_snoc :=
  repeat (apply Forall_app; split); try assumption;
  repeat (apply Forall_cons); try apply Forall_nil; simpl; auto.

(** One step of a well-formed thread keeps the application well formed. *)
Lemma thread_step_ok t device (a : App E) :
  thread_ok t -> app_ok a ->
  threads (snd (thread_step E t device a)) = threads a
  /\ match fst (thread_step E t device a) with
     | Some t' => thread_ok t'
     | None => True
     end
  /\ Forall callback_ok (after_queue (snd (thread_step E t device a)))
  /\ Forall (effect_ok E) (trace (snd (thread_step E t device a))).
Proof.
  intros Ht (Hth & Hq & Htr).
  destruct t as [[file_path|raw_text] callback|[|]]; simpl in Ht.
  - destruct Ht as [Hne ->].
    pose proof (source_call_ok file_path Hne) as Hsc.
    unfold thread_step, worker, call_func, bind, root_after, modify, ret.
    destruct (audio_source E file_path) as [data|e] eqn:Hsrc.
    + rewrite (load_task_source_ok _ _ _ _ Hsrc). cbv zeta.
      destruct (AcceptWaveform E (recognizer a) data) as [[[|]|e] r]; cbn;
        repeat split; forall_snoc.
    + rewrite (load_task_source_raises _ _ _ _ Hsrc). cbn.
      repeat split; forall_snoc.
  - destruct Ht as [Hraw ->]. pose proof Hraw as [Hne Hst].
    unfold thread_step, worker, call_func, bind, root_after, modify, ret.
    destruct (tool_check E raw_text) as [[|m matches]|e] eqn:Hcheck.
    + rewrite (submit_task_clean E raw_text a Hcheck). cbn.
      repeat split; forall_snoc. repeat split; auto.
    + destruct (tool_correct E raw_text) as [c|e] eqn:Hcorr.
      * rewrite (submit_task_issues E raw_text a m matches c Hcheck Hcorr). cbn.
        repeat split; forall_snoc. repeat split; auto; discriminate.
      * unfold submit_text_task, bind, call_check, call_correct, modify, lift.
        cbn. rewrite Hcheck. cbn. rewrite Hcorr. cbn.
        repeat split; forall_snoc.
    + rewrite (submit_task_check_raises E raw_text a e Hcheck). cbn.
      repeat split; forall_snoc.
  - unfold thread_step, record_microphone_open, bind, modify, lift, ret.
    destruct device as [data|e]; cbn; repeat split; forall_snoc.
  - unfold thread_step, record_microphone_loop, bind, modify, lift, ret,
      call_AcceptWaveform, call_FinalResult.
    destruct (is_recording a); cbn.
    + destruct device as [data|e]; cbn.
      * destruct (AcceptWaveform E (recognizer a) data) as [[flag|e] r]; cbn;
          repeat split; forall_snoc.
      * repeat split; forall_snoc.
    + destruct (FinalResult E (recognizer a)) as [d r]. cbn.
      repeat split; forall_snoc.
Qed.

Lemma step_ok (a : App E) ev : app_ok a -> app_ok (step E a ev).
Proof.
  intros Hok. pose proof Hok as (Hth & Hq & Htr).
  destruct ev as [| |file_path| | | |content| |tid device]; simpl.
  - repeat split; simpl; forall_snoc.
  - repeat split; assumption.
  - unfold load_audio_file. destruct file_path as [|c p]; simpl; [exact Hok|].
    repeat split; simpl; forall_snoc. split; [discriminate|reflexivity].
  - repeat split; assumption.
  - unfold submit_text.
    destruct (strip (Text_get (text_box a))) as [|c raw] eqn:Hraw; simpl.
    + repeat split; simpl; forall_snoc.
    + repeat split; simpl; forall_snoc.
      repeat split; [discriminate|].
      rewrite <- Hraw. apply strip_idempotent.
  - repeat split; assumption.
  - repeat split; assumption.
  - destruct (after_queue a) as [|[callback result] q] eqn:Hqa; [exact Hok|].
    inversion Hq as [|? ? Hc Hq']; subst.
    destruct callback, result as [text|matches corrected raw_text];
      simpl in Hc; try contradiction.
    + unfold call_handler, load_audio_file_on_complete.
      destruct (prefix "Error:" text); repeat split; simpl; forall_snoc.
    + unfold call_handler, submit_text_on_complete.
      destruct matches, corrected; repeat split; simpl; forall_snoc.
  - destruct (nth_error (threads a) tid) as [t|] eqn:Hnth; [|exact Hok].
    assert (Ht : thread_ok t).
    { apply nth_error_In in Hnth.
      rewrite Forall_forall in Hth. now apply Hth. }
    destruct (thread_step_ok t device a Ht Hok) as (Hsame & Ht' & Hq' & Htr').
    destruct (thread_step E t device a) as [t' a']. simpl in *.
    repeat split; simpl; try assumption.
    apply replace_thread_ok; [now rewrite Hsame | exact Ht'].
Qed.

Lemma reachable_ok (a : App E) : reachable a -> app_ok a.
Proof.
  apply reachable_ind.
  - repeat split; constructor.
  - intros b ev _. apply step_ok.
Qed.

End Invariant.

(** Extra (grammar engine, inputs): in every reachable state, every call
    made to [tool.check] or [tool.correct] was given a text that is not
    empty, not blank, and has no whitespace at either end. *)
Theorem grammar_engine_gets_stripped_text
  (E : Env) (a : App E) (e : effect) :
  reachable a ->
  In e (trace a) ->
  is_engine_call e = true ->
  exists text,
    (e = CheckCall text \/ e = CorrectCall text)
    /\ text <> "" /\ all_space text = false /\ strip text = text.
Proof.
  intros Hreach Hin Hcall.
  destruct (reachable_ok E a Hreach) as (_ & _ & Htr).
  rewrite Forall_forall in Htr. specialize (Htr e Hin).
  assert (Hblank : forall t, stripped t -> all_space t = false).
  { intros t [Hne Hst]. destruct (all_space t) eqn:Hsp; [|reflexivity].
    apply strip_empty_iff in Hsp. congruence. }
  destruct e; try discriminate; simpl in Htr; exists text;
    destruct Htr as [Hne Hst]; repeat split; auto; apply Hblank; now split.
Qed.

Lemma grammar_engine_gets_stripped_text_witness :
  exists text,
    (CheckCall "teh cat" = CheckCall text \/ CheckCall "teh cat" = CorrectCall text)
    /\ text <> "" /\ all_space text = false /\ strip text = text.
Proof.
  apply (grammar_engine_gets_stripped_text Demo.env
           (run Demo.env (new_app Demo.env)
              [Typing "  teh cat "; ClickSubmit; Sched 0 (Ok [])])
           (CheckCall "teh cat")).
  - now exists [Typing "  teh cat "; ClickSubmit; Sched 0 (Ok [])].
  - simpl. auto.
  - reflexivity.
Defined.

(** Extra (external calls): in every reachable state, the only process that
    was ever launched is ffmpeg, with the fixed options and the path chosen
    in the dialog, and only for a path whose extension is not [.wav]; the
    only files ever opened are paths whose extension is [.wav]. *)
Theorem only_ffmpeg_and_wav_files (E : Env) (a : App E) :
  reachable a ->
  (forall argv, In (SubprocessRun argv) (trace a) ->
     exists file_path,
       file_path <> ""
       /\ wav_spelling (snd (splitext E file_path)) = false
       /\ argv = ["ffmpeg"; "-i"; file_path; "-ar"; "16000"; "-ac"; "1";
                  "-f"; "wav"; "pipe:1"])
  /\ (forall path, In (OpenRead path) (trace a) ->
        path <> "" /\ wav_spelling (snd (splitext E path)) = true).
Proof.
  intros Hreach.
  destruct (reachable_ok E a Hreach) as (_ & _ & Htr).
  rewrite Forall_forall in Htr.
  split; intros x Hin; exact (Htr _ Hin).
Qed.

Lemma only_ffmpeg_and_wav_files_witness :
  "hi.wav" <> "" /\ wav_spelling (snd (splitext Demo.env "hi.wav")) = true.
Proof.
  apply (proj2 (only_ffmpeg_and_wav_files Demo.env
                  (run Demo.env (new_app Demo.env)
                     [ClickLoad "hi.wav"; Sched 0 (Ok [])])
                  (ex_intro _ [ClickLoad "hi.wav"; Sched 0 (Ok [])] eq_refl))
               "hi.wav").
  simpl. auto.
Defined.

(** Extra (callbacks): in every reachable state the callback that the main
    loop runs next receives what it unpacks.  A file callback receives a
    string.  A review callback receives the matches [tool.check] returned for
    the stripped text of the pane and a correction that is [None] exactly
    when there is no match, so the output pane ends up with ["CORRECT"] or
    with the string [tool.correct] returned for that same text, never with
    nothing. *)
Theorem next_callback_is_well_formed
  (E : Env) (a : App E) (callback : handler) (result : value E)
  (q : list (handler * value E)) :
  reachable a ->
  after_queue a = (callback, result) :: q ->
  match callback with
  | LoadOnComplete => exists text, result = Text text
  | SubmitOnComplete =>
      exists matches corrected raw_text,
        result = Review matches corrected raw_text
        /\ raw_text <> "" /\ strip raw_text = raw_text
        /\ tool_check E raw_text = Ok matches
        /\ ((matches = [] /\ corrected = None
             /\ placeholder_box (step E a RunAfter) = "CORRECT")
            \/ (matches <> [] /\
                exists c, corrected = Some c
                          /\ tool_correct E raw_text = Ok c
                          /\ placeholder_box (step E a RunAfter) = c))
  end.
Proof.
  intros Hreach Hq.
  destruct (reachable_ok E a Hreach) as (_ & Hqok & _).
  rewrite Hq in Hqok. inversion Hqok as [|? ? Hc _]; subst.
  destruct callback, result as [text|matches corrected raw_text];
    simpl in Hc; try contradiction.
  - now exists text.
  - exists matches, corrected, raw_text. split; [reflexivity|].
    destruct Hc as ([Hnone Hnil] & [Hne Hst] & Hcheck & Hcorr).
    repeat (split; [assumption|]).
    simpl. rewrite Hq.
    unfold call_handler, submit_text_on_complete.
    destruct matches as [|m matches].
    + left. repeat split. now apply Hnone.
    + right. split; [discriminate|].
      destruct corrected as [c|].
      * exists c. repeat split. exact Hcorr.
      * specialize (Hnil eq_refl). discriminate.
Qed.

Lemma next_callback_is_well_formed_witness :
  exists matches corrected raw_text,
    @Review Demo.env [0%nat] (Some "the cat") "teh cat" =
    Review matches corrected raw_text
    /\ raw_text <> "" /\ strip raw_text = raw_text
    /\ tool_check Demo.env raw_text = Ok matches
    /\ ((matches = [] /\ corrected = None
         /\ placeholder_box
              (run Demo.env (new_app Demo.env)
                 [Typing "teh cat"; ClickSubmit; Sched 0 (Ok []); RunAfter]) =
            "CORRECT")
        \/ (matches <> [] /\
            exists c, corrected = Some c
                      /\ tool_correct Demo.env raw_text = Ok c
                      /\ placeholder_box
                           (run Demo.env (new_app Demo.env)
                              [Typing "teh cat"; ClickSubmit; Sched 0 (Ok []);
                               RunAfter]) = c)).
Proof.
  apply (next_callback_is_well_formed Demo.env
           (run Demo.env (new_app Demo.env)
              [Typing "teh cat"; ClickSubmit; Sched 0 (Ok [])])
           SubmitOnComplete (@Review Demo.env [0%nat] (Some "the cat") "teh cat") []).
  - now exists [Typing "teh cat"; ClickSubmit; Sched 0 (Ok [])].
  - reflexivity.
Defined.

Section Frames.

Variable E : Env.

(** What no thread step changes, and what a worker in addition leaves
    alone. *)
Lemma thread_step_frame t device (a : App E) :
  let a' := snd (thread_step E t device a) in
  is_recording a' = is_recording a
  /\ record_label a' = record_label a
  /\ placeholder_box a' = placeholder_box a
  /\ threads a' = threads a
  /\ match t with
     | Worker _ _ => text_box a' = text_box a /\ audio_data a' = audio_data a
     | RecordMicrophone _ => after_queue a' = after_queue a
     end.
Proof.
  cbv zeta.
  destruct t as [[file_path|raw_text] callback|[|]].
  - unfold thread_step, worker, call_func, bind, root_after, modify, ret.
    destruct (audio_source E file_path) as [data|e] eqn:Hsrc.
    + rewrite (load_task_source_ok _ _ _ _ Hsrc). cbv zeta.
      destruct (AcceptWaveform E (recognizer a) data) as [[[|]|e] r];
        destruct callback; cbn; repeat split.
    + rewrite (load_task_source_raises _ _ _ _ Hsrc).
      destruct callback; cbn; repeat split.
  - unfold thread_step, worker, call_func, bind, root_after, modify, ret.
    destruct (tool_check E raw_text) as [[|m matches]|e] eqn:Hcheck.
    + rewrite (submit_task_clean E raw_text a Hcheck).
      destruct callback; cbn; repeat split.
    + destruct (tool_correct E raw_text) as [c|e] eqn:Hcorr.
      * rewrite (submit_task_issues E raw_text a m matches c Hcheck Hcorr).
        destruct callback; cbn; repeat split.
      * unfold submit_text_task, bind, call_check, call_correct, modify, lift.
        cbn. rewrite Hcheck. cbn. rewrite Hcorr. cbn. repeat split.
    + rewrite (submit_task_check_raises E raw_text a e Hcheck). cbn.
      repeat split.
  - unfold thread_step, record_microphone_open, bind, modify, lift, ret.
    destruct device as [data|e]; cbn; repeat split.
  - unfold thread_step, record_microphone_loop, bind, modify, lift, ret,
      call_AcceptWaveform, call_FinalResult.
    destruct (is_recording a) eqn:Hrec; cbn.
    + destruct device as [data|e]; cbn.
      * destruct (AcceptWaveform E (recognizer a) data) as [[flag|e] r]; cbn;
          repeat split; auto.
      * repeat split; auto.
    + destruct (FinalResult E (recognizer a)) as [d r]. cbn.
      repeat split; auto.
Qed.

Lemma call_handler_frame callback result (a : App E) :
  let a' := call_handler E callback result a in
  is_recording a' = is_recording a
  /\ record_label a' = record_label a
  /\ threads a' = threads a
  /\ after_queue a' = after_queue a
  /\ recognizer a' = recognizer a
  /\ audio_data a' = audio_data a.
Proof.
  cbv zeta. unfold call_handler, load_audio_file_on_complete,
    submit_text_on_complete.
  destruct callback, result as [text|matches corrected raw_text];
    try destruct (prefix "Error:" text); try destruct matches;
    try destruct corrected; repeat split.
Qed.

Lemma sched_thread_at_end (c : App E) l t device :
  threads c = (l ++ [t])%list ->
  step E c (Sched (length l) device) =
  with_threads E
    (l ++ match fst (thread_step E t device c) with
          | Some t' => [t']
          | None => []
          end)
    (snd (thread_step E t device c)).
Proof.
  intros Hth. unfold step. rewrite Hth, nth_error_last.
  destruct (thread_step_frame t device c) as (_ & _ & _ & Hsame & _).
  destruct (thread_step E t device c) as [t' c']. simpl in *.
  now rewrite Hsame, Hth, replace_thread_last.
Qed.

Lemma edits_frame mid : forall (b : App E),
  forallb is_edit mid = true ->
  threads (run E b mid) = threads b
  /\ after_queue (run E b mid) = after_queue b
  /\ trace (run E b mid) = trace b
  /\ recognizer (run E b mid) = recognizer b.
Proof.
  induction mid as [|ev mid IH]; intros b Hmid; [repeat split|].
  simpl in Hmid. apply andb_true_iff in Hmid as [Hev Hmid].
  rewrite run_cons.
  destruct (IH (step E b ev) Hmid) as (Hth & Hq & Htr & Hr).
  rewrite Hth, Hq, Htr, Hr.
  destruct ev; try discriminate; repeat split.
Qed.

End Frames.

(** Extra (threads, frame): no step of any thread changes the recording
    flag, the look of the record button, the output pane or the list of
    threads.  A worker started by [run_in_thread] changes neither the input
    pane nor the audio buffer either, whatever its task does or raises: the
    panes change only through the callbacks run by the main loop and through
    the capture thread, which queues nothing. *)
Theorem threads_leave_the_widgets_alone
  (E : Env) (t : thread) (device : result bytes) (a : App E) :
  let a' := snd (thread_step E t device a) in
  is_recording a' = is_recording a
  /\ record_label a' = record_label a
  /\ placeholder_box a' = placeholder_box a
  /\ threads a' = threads a
  /\ match t with
     | Worker _ _ => text_box a' = text_box a /\ audio_data a' = audio_data a
     | RecordMicrophone _ => after_queue a' = after_queue a
     end.
Proof. exact (thread_step_frame E t device a). Qed.

(** Extra (record button): in every reachable state the record button looks
    pressed (sunken, red) exactly when the recording flag is up, and raised
    and grey otherwise, however threads and callbacks interleave. *)
Theorem record_button_shows_the_flag (E : Env) (a : App E) :
  reachable a -> record_label a = label_for (is_recording a).
Proof.
  revert a.
  apply (reachable_ind E (fun a => record_label a = label_for (is_recording a)));
    [reflexivity|].
  intros b ev _ IH.
  destruct ev as [| |file_path| | | |content| |tid device]; simpl;
    try exact IH; try reflexivity.
  - unfold load_audio_file. destruct file_path; simpl; exact IH.
  - unfold submit_text.
    destruct (strip (Text_get (text_box b))); simpl; exact IH.
  - destruct (after_queue b) as [|[callback result] q]; [exact IH|].
    destruct (call_handler_frame E callback result (with_after_queue E q b))
      as (Hrec & Hlab & _).
    now rewrite Hrec, Hlab.
  - destruct (nth_error (threads b) tid) as [t|]; [|exact IH].
    destruct (thread_step_frame E t device b) as (Hrec & Hlab & _).
    destruct (thread_step E t device b) as [t' b']. simpl in *.
    now rewrite Hrec, Hlab.
Qed.

Lemma record_button_shows_the_flag_witness :
  record_label (run Demo.env (new_app Demo.env) [ButtonPress; Sched 0 (Ok [])]) =
  ("sunken", "red").
Proof.
  exact (record_button_shows_the_flag Demo.env
           (run Demo.env (new_app Demo.env) [ButtonPress; Sched 0 (Ok [])])
           (ex_intro _ [ButtonPress; Sched 0 (Ok [])] eq_refl)).
Defined.

(** Extra (review, edits meanwhile): the text that is checked is the one
    captured when Submit was clicked.  Typing in the input pane, Reset or
    Write Text between the click and the end of the review neither cancel it
    nor change the text given to the engine, and the verdict overwrites
    whatever the output pane held by then. *)
Theorem edits_do_not_cancel_a_review
  (E : Env) (a : App E) (raw_text : string) (matches : list (Match E))
  (corrected : string) (mid : list event) (device : result bytes) :
  strip (Text_get (text_box a)) = raw_text ->
  raw_text <> "" ->
  after_queue a = [] ->
  tool_check E raw_text = Ok matches ->
  (matches <> [] -> tool_correct E raw_text = Ok corrected) ->
  forallb is_edit mid = true ->
  let a' := run E a (ClickSubmit :: mid ++
                     [Sched (length (threads a)) device; RunAfter]) in
  placeholder_box a' =
    match matches with [] => "CORRECT" | _ :: _ => corrected end
  /\ trace a' =
     (trace a ++ CheckCall raw_text ::
      match matches with [] => [] | _ :: _ => [CorrectCall raw_text] end)%list
  /\ threads a' = threads a.
Proof.
  intros Hraw Hne Hq Hcheck Hcorrect Hmid. cbv zeta.
  rewrite run_cons, run_app.
  change (step E a ClickSubmit) with (submit_text E a).
  rewrite (submit_text_spawns E a raw_text Hraw Hne).
  set (b := run_in_thread E (SubmitTask raw_text) (Some SubmitOnComplete)
              (with_placeholder_box E "Checking grammar..." a)).
  destruct (edits_frame E mid b Hmid) as (Hth & Hqc & Htr & _).
  remember (run E b mid) as c eqn:Hc. clear Hc.
  change (threads b) with (threads a ++ [Worker (SubmitTask raw_text)
                                           (Some SubmitOnComplete)])%list in Hth.
  change (after_queue b) with (after_queue a) in Hqc.
  change (trace b) with (trace a) in Htr.
  rewrite run_cons, (sched_thread_at_end E c _ _ device Hth).
  unfold thread_step, worker, call_func, bind, root_after, modify, ret.
  destruct matches as [|m matches].
  - rewrite (submit_task_clean E raw_text c Hcheck). cbn.
    rewrite Hqc, Hq. cbn. rewrite Htr, app_nil_r. repeat split.
  - rewrite (submit_task_issues E raw_text c m matches corrected Hcheck
               (Hcorrect ltac:(discriminate))).
    cbn. rewrite Hqc, Hq. cbn. rewrite Htr, app_nil_r, <- !app_assoc.
    repeat split.
Qed.

Lemma edits_do_not_cancel_a_review_witness :
  let E := Demo.env in
  let a' := run E (with_text_box E "teh cat" (new_app E))
              [ClickSubmit; Typing "something else"; ClickReset;
               Sched 0 (Ok []); RunAfter] in
  placeholder_box a' = "the cat"
  /\ trace a' = [CheckCall "teh cat"; CorrectCall "teh cat"].
Proof.
  pose proof (edits_do_not_cancel_a_review Demo.env
                (with_text_box Demo.env "teh cat" (new_app Demo.env))
                "teh cat" [0%nat] "the cat"
                [Typing "something else"; ClickReset] (Ok [])
                eq_refl ltac:(discriminate) eq_refl eq_refl (fun _ => eq_refl)
                eq_refl)
    as (Hbox & Htr & _).
  exact (conj Hbox Htr).
Defined.

(** ** Which files are read and which are transcoded *)

Lemma append_assoc_str (s t u : string) : (s ++ t) ++ u = s ++ t ++ u.
Proof. induction s as [|c s IH]; simpl; [reflexivity | now rewrite IH]. Qed.

Lemma length_append_str (s t : string) :
  String.length (s ++ t) = (String.length s + String.length t)%nat.
Proof. induction s as [|c s IH]; simpl; [reflexivity | now rewrite IH]. Qed.

Lemma take_length_append s t : take (String.length s) (s ++ t) = s.
Proof. induction s as [|c s IH]; simpl; [now destruct t | now rewrite IH]. Qed.

Lemma drop_length_append s t : drop (String.length s) (s ++ t) = t.
Proof. induction s as [|c s IH]; simpl; [reflexivity | exact IH]. Qed.

Lemma rfind_from_none c s : forall i,
  no_char c s = true -> rfind_from c s i = -1.
Proof.
  induction s as [|x s IH]; intros i H; simpl in *; [reflexivity|].
  apply andb_true_iff in H as [Hx Hs].
  rewrite (IH (i + 1) Hs). simpl.
  apply negb_true_iff in Hx. now rewrite Hx.
Qed.

Lemma rfind_from_bound c s : forall i,
  0 <= i ->
  -1 <= rfind_from c s i < i + Z.of_nat (String.length s).
Proof.
  induction s as [|x s IH]; intros i Hi; simpl String.length; simpl rfind_from.
  - lia.
  - specialize (IH (i + 1) ltac:(lia)).
    destruct (0 <=? rfind_from c s (i + 1)); [lia|].
    destruct (Ascii.eqb x c); lia.
Qed.

Lemma rfind_from_app_none c s t : forall i,
  no_char c t = true ->
  rfind_from c (s ++ t) i = rfind_from c s i.
Proof.
  induction s as [|x s IH]; intros i H; simpl.
  - now apply rfind_from_none.
  - now rewrite (IH (i + 1) H).
Qed.

Lemma rfind_from_app_last c s t : forall i,
  0 <= i ->
  no_char c t = true ->
  rfind_from c (s ++ String c t) i = i + Z.of_nat (String.length s).
Proof.
  induction s as [|x s IH]; intros i Hi H.
  - simpl. rewrite (rfind_from_none c t (i + 1) H). simpl.
    rewrite Ascii.eqb_refl. lia.
  - simpl String.length. simpl rfind_from.
    rewrite (IH (i + 1) ltac:(lia) H).
    destruct (0 <=? i + 1 + Z.of_nat (String.length s)) eqn:Hle.
    + lia.
    + apply Z.leb_gt in Hle. lia.
Qed.

(** A name that is not made of dots has a character that is not a dot. *)
Lemma not_all_dots name :
  all_dots name = false ->
  exists j, (j < String.length name)%nat
            /\ String.eqb (take 1 (drop j name)) "." = false.
Proof.
  induction name as [|c name IH]; simpl; [discriminate|].
  intros H. destruct (Ascii.eqb c ".") eqn:Hc.
  - destruct (IH H) as (j & Hj & Hch). exists (S j). split; [lia | exact Hch].
  - exists O. split; [lia|]. simpl. now rewrite Hc.
Qed.

Lemma take1_drop_append s t u : forall j,
  (j < String.length t)%nat ->
  take 1 (drop (String.length s + j) (s ++ t ++ u)) = take 1 (drop j t).
Proof.
  induction s as [|c s IH]; intros j Hj; simpl.
  - revert j Hj. induction t as [|x t IHt]; intros j Hj; simpl in *; [lia|].
    destruct j as [|j]; [reflexivity|]. simpl. apply IHt. lia.
  - now apply IH.
Qed.

(** The loop stops at the first character of the file name that is not a
    dot, when there is one before the last dot. *)
Lemma skip_leading_dots_finds p dotIndex : forall fuel filenameIndex k,
  (Z.to_nat (dotIndex - filenameIndex) <= fuel)%nat ->
  filenameIndex <= k < dotIndex ->
  String.eqb (char_at p k) "." = false ->
  skip_leading_dots fuel p filenameIndex dotIndex =
  Some (slice_to p dotIndex, slice_from p dotIndex).
Proof.
  induction fuel as [|fuel IH]; intros f k Hfuel Hk Hch; [lia|].
  simpl.
  destruct (f <? dotIndex) eqn:Hlt; [|apply Z.ltb_ge in Hlt; lia].
  destruct (String.eqb (char_at p f) ".") eqn:Hf; simpl; [|reflexivity].
  apply (IH (f + 1) k); [lia| |exact Hch].
  assert (k <> f) by (intros ->; congruence). lia.
Qed.

(** [os.path.splitext] on a path made of anything, then a name that is not
    only dots, then a dot and a tail without dot, the name and the extension
    being free of separators. *)
Lemma splitext_name_ext (E : Env) (dir name ext_tail : string) :
  no_char "." ext_tail = true ->
  all_dots name = false ->
  no_char (os_sep E) (name ++ String "." ext_tail) = true ->
  match os_altsep E with
  | Some c => no_char c (name ++ String "." ext_tail)
  | None => true
  end = true ->
  splitext E (dir ++ name ++ String "." ext_tail) =
  (dir ++ name, String "." ext_tail).
Proof.
  intros Htail Hname Hsep Halt.
  set (ext := String "."%char ext_tail) in *.
  set (p := dir ++ name ++ ext).
  assert (Hdot : rfind "." p = Z.of_nat (String.length (dir ++ name))).
  { unfold rfind, p, ext. rewrite <- append_assoc_str.
    rewrite rfind_from_app_last; [lia | lia | exact Htail]. }
  assert (Hbound : forall c, no_char c (name ++ ext) = true ->
                             -1 <= rfind c p < Z.of_nat (String.length dir)).
  { intros c Hc. unfold rfind, p. rewrite (rfind_from_app_none c dir _ 0 Hc).
    pose proof (rfind_from_bound c dir 0 ltac:(lia)). lia. }
  destruct (not_all_dots name Hname) as (j & Hj & Hch).
  assert (Hlen : String.length (dir ++ name) =
                 (String.length dir + String.length name)%nat)
    by apply length_append_str.
  unfold splitext, _splitext. fold p.
  set (sepIndex := match os_altsep E with
                   | Some a => Z.max (rfind (os_sep E) p) (rfind a p)
                   | None => rfind (os_sep E) p
                   end).
  assert (Hsi : -1 <= sepIndex < Z.of_nat (String.length dir)).
  { unfold sepIndex. pose proof (Hbound (os_sep E) Hsep).
    destruct (os_altsep E) as [c|]; [|assumption].
    pose proof (Hbound c Halt). lia. }
  rewrite Hdot.
  destruct (sepIndex <? Z.of_nat (String.length (dir ++ name))) eqn:Hlt;
    [|apply Z.ltb_ge in Hlt; lia].
  rewrite (skip_leading_dots_finds p _ _ (sepIndex + 1)
             (Z.of_nat (String.length dir + j))); try lia.
  - unfold slice_to, slice_from. rewrite Nat2Z.id.
    unfold p. rewrite <- append_assoc_str.
    now rewrite take_length_append, drop_length_append.
  - unfold char_at, slice_from. rewrite Nat2Z.id.
    unfold p. now rewrite take1_drop_append.
Qed.

(** Extra (which files are transcoded): for a path that ends with a file
    name which is not only dots, a dot, and an extension, the name and the
    extension holding no path separator, the file task opens the file itself
    when the extension is [.wav] in any letter case and runs ffmpeg on it
    otherwise, whatever directory part comes first. *)
Theorem extension_decides_the_source
  (E : Env) (dir name ext_tail : string) (a : App E) :
  no_char "." ext_tail = true ->
  all_dots name = false ->
  no_char (os_sep E) (name ++ String "." ext_tail) = true ->
  match os_altsep E with
  | Some c => no_char c (name ++ String "." ext_tail)
  | None => true
  end = true ->
  let file_path := dir ++ name ++ String "." ext_tail in
  let a' := snd (load_audio_file_task E file_path a) in
  splitext E file_path = (dir ++ name, String "." ext_tail)
  /\ subprocess_calls (trace a') =
     (subprocess_calls (trace a) ++
      if wav_spelling (String "." ext_tail) then []
      else [ffmpeg_args file_path])%list
  /\ open_calls (trace a') =
     (open_calls (trace a) ++
      if wav_spelling (String "." ext_tail) then [file_path] else [])%list.
Proof.
  intros Htail Hname Hsep Halt. cbv zeta.
  pose proof (splitext_name_ext E dir name ext_tail Htail Hname Hsep Halt) as Hsplit.
  split; [exact Hsplit|].
  set (file_path := dir ++ name ++ String "."%char ext_tail) in *.
  assert (Hcall : source_call E file_path =
                  if wav_spelling (String "." ext_tail)
                  then OpenRead file_path
                  else SubprocessRun (ffmpeg_args file_path)).
  { unfold source_call. now rewrite Hsplit. }
  destruct (audio_source E file_path) as [data|e] eqn:Hsrc.
  - rewrite (load_task_source_ok _ _ _ _ Hsrc). cbv zeta. rewrite Hcall.
    destruct (AcceptWaveform E (recognizer a) data) as [[[|]|e] r];
      destruct (wav_spelling _); simpl; split_calls;
      rewrite ?app_nil_r; auto.
  - rewrite (load_task_source_raises _ _ _ _ Hsrc). rewrite Hcall.
    destruct (wav_spelling _); simpl; split_calls; rewrite ?app_nil_r; auto.
Qed.

Lemma extension_decides_the_source_witness :
  splitext Demo.env "/home/me/.cache/talk.v2.WAV" =
  ("/home/me/.cache/talk.v2", ".WAV").
Proof.
  exact (proj1 (extension_decides_the_source Demo.env "/home/me/.cache/"
                  "talk.v2" "WAV" (new_app Demo.env)
                  eq_refl eq_refl eq_refl eq_refl)).
Defined.

Lemma last_char_none s : last_char s = None -> s = "".
Proof.
  destruct s as [|c s]; simpl; [reflexivity|].
  destruct (last_char s); discriminate.
Qed.

Lemma last_char_some s : forall c,
  last_char s = Some c -> exists s', s = s' ++ String c "".
Proof.
  induction s as [|x s IH]; intros c H; simpl in H; [discriminate|].
  destruct (last_char s) as [d|] eqn:Hl.
  - injection H as ->. destruct (IH c eq_refl) as [s' ->].
    now exists (String x s').
  - injection H as ->. apply last_char_none in Hl. subst s. now exists "".
Qed.

Lemma all_dots_char dots : forall j,
  all_dots dots = true ->
  (j < String.length dots)%nat ->
  take 1 (drop j dots) = ".".
Proof.
  induction dots as [|c dots IH]; intros j H Hj; simpl in *; [lia|].
  apply andb_true_iff in H as [Hc Hd].
  destruct j as [|j]; simpl.
  - apply Ascii.eqb_eq in Hc. now subst c.
  - apply IH; [exact Hd | lia].
Qed.

(** The loop finds nothing when the file name starts with dots up to the
    last dot. *)
Lemma skip_leading_dots_none p dotIndex : forall fuel filenameIndex,
  (forall k, filenameIndex <= k < dotIndex -> char_at p k = ".") ->
  skip_leading_dots fuel p filenameIndex dotIndex = None.
Proof.
  induction fuel as [|fuel IH]; intros f Hdots; [reflexivity|].
  simpl. destruct (f <? dotIndex) eqn:Hlt; [|reflexivity].
  apply Z.ltb_lt in Hlt.
  rewrite (Hdots f ltac:(lia)). simpl.
  apply IH. intros k Hk. apply Hdots. lia.
Qed.

(** [os.path.splitext] on a file name made of dots, a last dot and a tail:
    there is no extension. *)
Lemma splitext_dot_file (E : Env) (pre dots tail : string) :
  all_dots dots = true ->
  no_char "." tail = true ->
  no_char (os_sep E) (dots ++ String "." tail) = true ->
  match os_altsep E with
  | Some c => no_char c (dots ++ String "." tail)
  | None => true
  end = true ->
  ends_directory E pre = true ->
  splitext E (pre ++ dots ++ String "." tail) =
  (pre ++ dots ++ String "." tail, "").
Proof.
  intros Hdots Htail Hsep Halt Hpre.
  set (rest := dots ++ String "."%char tail) in *.
  set (p := pre ++ rest).
  assert (Hdot : rfind "." p = Z.of_nat (String.length (pre ++ dots))).
  { unfold rfind, p, rest. rewrite <- append_assoc_str.
    rewrite rfind_from_app_last; [lia | lia | exact Htail]. }
  assert (Hlen : String.length (pre ++ dots) =
                 (String.length pre + String.length dots)%nat)
    by apply length_append_str.
  assert (Hbound : forall c, no_char c rest = true ->
                             -1 <= rfind c p < Z.of_nat (String.length pre)).
  { intros c Hc. unfold rfind, p. rewrite (rfind_from_app_none c pre _ 0 Hc).
    pose proof (rfind_from_bound c pre 0 ltac:(lia)). lia. }
  unfold splitext, _splitext. fold p.
  set (sepIndex := match os_altsep E with
                   | Some a => Z.max (rfind (os_sep E) p) (rfind a p)
                   | None => rfind (os_sep E) p
                   end).
  assert (Hsi : sepIndex = Z.of_nat (String.length pre) - 1).
  { unfold ends_directory in Hpre.
    destruct (last_char pre) as [c|] eqn:Hlast.
    - destruct (last_char_some pre c Hlast) as [pre' Hpre'].
      assert (Hl : String.length pre = S (String.length pre')).
      { rewrite Hpre', length_append_str. simpl. lia. }
      assert (Hat : forall d, Ascii.eqb c d = true -> no_char d rest = true ->
                              rfind d p = Z.of_nat (String.length pre')).
      { intros d Hd Hn. apply Ascii.eqb_eq in Hd. subst d.
        unfold rfind, p. rewrite Hpre', append_assoc_str. simpl.
        rewrite rfind_from_app_last; [lia | lia | exact Hn]. }
      unfold sepIndex, is_separator in *.
      pose proof (Hbound (os_sep E) Hsep) as Hb1.
      destruct (os_altsep E) as [alt|].
      + pose proof (Hbound alt Halt) as Hb2.
        apply orb_true_iff in Hpre as [Hc | Hc].
        * rewrite (Hat _ Hc Hsep). lia.
        * rewrite (Hat _ Hc Halt). lia.
      + rewrite orb_false_r in Hpre. rewrite (Hat _ Hpre Hsep). lia.
    - apply last_char_none in Hlast.
      assert (Hnone : forall d, no_char d rest = true -> rfind d p = -1).
      { intros d Hn. unfold rfind, p. rewrite Hlast. simpl.
        now apply rfind_from_none. }
      unfold sepIndex. rewrite (Hnone _ Hsep).
      destruct (os_altsep E) as [alt|]; [rewrite (Hnone _ Halt)|];
        rewrite Hlast; simpl; lia. }
  rewrite Hdot.
  destruct (sepIndex <? Z.of_nat (String.length (pre ++ dots))) eqn:Hlt.
  - rewrite skip_leading_dots_none; [reflexivity|].
    intros k Hk.
    assert (Hk' : exists j, k = Z.of_nat (String.length pre + j)
                            /\ (j < String.length dots)%nat).
    { exists (Z.to_nat (k - Z.of_nat (String.length pre))). split; lia. }
    destruct Hk' as (j & -> & Hj).
    unfold char_at, slice_from. rewrite Nat2Z.id.
    unfold p, rest. rewrite take1_drop_append; [|exact Hj].
    now apply all_dots_char.
  - reflexivity.
Qed.

(** Extra (dot files): a file whose name is only dots followed by a dot and
    a tail, such as a hidden file called [.wav], has no extension for
    [os.path.splitext]; the file task therefore never opens it and always
    hands it to ffmpeg. *)
Theorem dot_file_is_always_transcoded
  (E : Env) (pre dots tail : string) (a : App E) :
  all_dots dots = true ->
  no_char "." tail = true ->
  no_char (os_sep E) (dots ++ String "." tail) = true ->
  match os_altsep E with
  | Some c => no_char c (dots ++ String "." tail)
  | None => true
  end = true ->
  ends_directory E pre = true ->
  let file_path := pre ++ dots ++ String "." tail in
  let a' := snd (load_audio_file_task E file_path a) in
  splitext E file_path = (file_path, "")
  /\ subprocess_calls (trace a') =
     (subprocess_calls (trace a) ++ [ffmpeg_args file_path])%list
  /\ open_calls (trace a') = open_calls (trace a).
Proof.
  intros Hdots Htail Hsep Halt Hpre. cbv zeta.
  pose proof (splitext_dot_file E pre dots tail Hdots Htail Hsep Halt Hpre)
    as Hsplit.
  split; [exact Hsplit|].
  set (file_path := pre ++ dots ++ String "."%char tail) in *.
  assert (Hcall : source_call E file_path = SubprocessRun (ffmpeg_args file_path)).
  { unfold source_call. now rewrite Hsplit. }
  destruct (audio_source E file_path) as [data|e] eqn:Hsrc.
  - rewrite (load_task_source_ok _ _ _ _ Hsrc). cbv zeta. rewrite Hcall.
    destruct (AcceptWaveform E (recognizer a) data) as [[[|]|e] r];
      simpl; split_calls; rewrite ?app_nil_r; auto.
  - rewrite (load_task_source_raises _ _ _ _ Hsrc). rewrite Hcall.
    simpl. split_calls. rewrite ?app_nil_r. auto.
Qed.

Lemma dot_file_is_always_transcoded_witness :
  splitext Demo.env "/home/me/.wav" = ("/home/me/.wav", "")
  /\ subprocess_calls
       (trace (snd (load_audio_file_task Demo.env "/home/me/.wav"
                      (new_app Demo.env)))) =
     [ffmpeg_args "/home/me/.wav"].
Proof.
  pose proof (dot_file_is_always_transcoded Demo.env "/home/me/" "" "wav"
                (new_app Demo.env) eq_refl eq_refl eq_refl eq_refl eq_refl)
    as (Hsplit & Hrun & _).
  exact (conj Hsplit Hrun).
Defined.

(** ** The recognizer is shared *)

(** Extra (shared recognizer): the file task and the capture thread use the
    same recognizer.  When a file was loaded and [AcceptWaveform] reported no
    finished utterance, what the recognizer kept of the file is still there
    when the next recording is finalized: the transcript of the recording is
    the final result of the recognizer fed with the file's bytes first and
    the chunks of the session after them. *)
Theorem file_audio_stays_for_the_next_recording
  (E : Env) (file_path : string) (a : App E) (device : result bytes)
  (data : bytes) (chunks : list bytes) (r1 r2 : rstate E) :
  file_path <> "" ->
  after_queue a = [] ->
  audio_source E file_path = Ok data ->
  AcceptWaveform E (recognizer a) data = (Ok false, r1) ->
  feed E r1 chunks = Some r2 ->
  let a1 := run E a (load_once file_path (length (threads a)) device) in
  let a2 := run E a1 (session (length (threads a1)) chunks) in
  text_box a1 = ""
  /\ feed E (recognizer a) (data :: chunks) = Some r2
  /\ text_box a2 = dict_get (fst (FinalResult E r2)) "text" ""
  /\ audio_data a2 = concat chunks.
Proof.
  intros Hne Hq Hsrc Hacc Hfeed. cbv zeta.
  destruct (load_once_run E file_path a device Hne Hq) as (text & Htext & Hrun).
  cbv zeta in Htext, Hrun.
  remember (run E a (load_once file_path (length (threads a)) device)) as a1
    eqn:Ha1.
  clear Ha1.
  set (b := load_audio_file E file_path a) in *.
  assert (Hrec : recognizer b = recognizer a).
  { unfold b. rewrite (load_audio_file_spawns E file_path a Hne). reflexivity. }
  rewrite (load_task_source_ok _ _ _ _ Hsrc) in Htext, Hrun.
  cbv zeta in Htext, Hrun. rewrite Hrec, Hacc in Htext, Hrun.
  simpl in Htext. injection Htext as <-.
  unfold load_audio_file_on_complete in Hrun. simpl in Hrun.
  assert (Hr1 : recognizer a1 = r1) by (rewrite Hrun; reflexivity).
  assert (Hbox : text_box a1 = "") by (rewrite Hrun; reflexivity).
  clear Hrun.
  split; [exact Hbox|].
  split; [simpl; now rewrite Hacc|].
  destruct (capture_start E a1) as (Hth0 & Hrec0 & Haud0 & Hr0 & _).
  remember (run E a1 [ButtonPress; Sched (length (threads a1)) (Ok [])]) as c0
    eqn:Hc0.
  rewrite <- Hr1, <- Hr0 in Hfeed.
  destruct (capture_loop E chunks c0 (threads a1) r2 Hth0 Hrec0 Hfeed)
    as (Hth1 & _ & Haud1 & Hr2 & _).
  remember (run E c0 (map (fun c => Sched (length (threads a1)) (Ok c)) chunks))
    as c1 eqn:Hc1.
  rewrite Hth0 in Hth1.
  destruct (capture_stop E c1 (threads a1) Hth1) as (_ & _ & Haud2 & Htxt2 & _).
  assert (Hrun : run E a1 (session (length (threads a1)) chunks) =
                 run E c1 [ButtonRelease; Sched (length (threads a1)) (Ok [])]).
  { unfold session.
    change (ButtonPress :: Sched (length (threads a1)) (Ok []) ::
            map (fun c => Sched (length (threads a1)) (Ok c)) chunks ++
            [ButtonRelease; Sched (length (threads a1)) (Ok [])])%list
      with ([ButtonPress; Sched (length (threads a1)) (Ok [])] ++
            map (fun c => Sched (length (threads a1)) (Ok c)) chunks ++
            [ButtonRelease; Sched (length (threads a1)) (Ok [])])%list.
    rewrite !run_app. now rewrite <- Hc0, <- Hc1. }
  rewrite Hrun. split.
  - now rewrite Htxt2, Hr2.
  - now rewrite Haud2, Haud1, Haud0.
Qed.

Lemma file_audio_stays_for_the_next_recording_witness :
  let E := Demo.env in
  let a1 := run E (new_app E) (load_once "hi.wav" 0 (Ok [])) in
  let a2 := run E a1 (session 0 [Demo.audio " there"]) in
  text_box a1 = "" /\ text_box a2 = "hi there"
  /\ audio_data a2 = Demo.audio " there".
Proof.
  pose proof (file_audio_stays_for_the_next_recording Demo.env "hi.wav"
                (new_app Demo.env) (Ok []) (Demo.audio "hi")
                [Demo.audio " there"] (Demo.audio "hi") (Demo.audio "hi there")
                ltac:(discriminate) eq_refl eq_refl eq_refl eq_refl)
    as (H1 & _ & H2 & H3).
  exact (conj H1 (conj H2 H3)).
Defined.

(** A run of the whole file path in the concrete world, for
    [file_task_one_outcome]. *)
Lemma file_task_one_outcome_witness :
  let a1 := run Demo.env (new_app Demo.env)
              [ClickLoad "talk.mp3"; Sched 0 (Ok [])] in
  threads a1 = []
  /\ exists text, after_queue a1 = [(LoadOnComplete, Text text)].
Proof.
  exact (file_task_one_outcome Demo.env "talk.mp3" (new_app Demo.env) (Ok [])
           ltac:(discriminate)).
Defined.

(** ** [os.path.splitext] computes the extension *)

Section Extension.

Variable E : Env.

Lemma file_name_split p :
  exists dir,
    p = dir ++ file_name E p
    /\ ends_directory E dir = true
    /\ has_separator E (file_name E p) = false.
Proof.
  induction p as [|c s IH]; simpl.
  - exists "". repeat split.
  - destruct IH as (dir & Hs & Hdir & Hfn).
    destruct (has_separator E s) eqn:Hsep.
    + exists (String c dir). repeat split.
      * simpl. now rewrite <- Hs.
      * unfold ends_directory in *. simpl.
        destruct (last_char dir) as [d|] eqn:Hlast; [exact Hdir|].
        apply last_char_none in Hlast. subst dir. simpl in Hs.
        rewrite <- Hs in Hfn. congruence.
      * exact Hfn.
    + destruct (is_separator E c) eqn:Hc.
      * exists (String c ""). repeat split; [|exact Hsep].
        unfold ends_directory. simpl. exact Hc.
      * exists "". repeat split. simpl. now rewrite Hc, Hsep.
Qed.

Lemma no_separator_no_char b :
  has_separator E b = false ->
  no_char (os_sep E) b = true
  /\ match os_altsep E with
     | Some c => no_char c b
     | None => true
     end = true.
Proof.
  induction b as [|x b IH]; simpl.
  - intros _. split; [reflexivity | now destruct (os_altsep E)].
  - intros H. apply orb_false_iff in H as [Hx Hb].
    destruct (IH Hb) as [Hsep Halt].
    unfold is_separator in Hx. apply orb_false_iff in Hx as [Hx1 Hx2].
    rewrite Hx1, Hsep. split; [reflexivity|].
    destruct (os_altsep E) as [alt|]; [|reflexivity].
    now rewrite Hx2, Halt.
Qed.

Lemma last_dot_split b :
  no_char "." b = true
  \/ exists pre tail, b = pre ++ String "." tail /\ no_char "." tail = true.
Proof.
  induction b as [|x b IH]; simpl; [now left|].
  destruct IH as [Hnone | (pre & tail & -> & Htail)].
  - destruct (Ascii.eqb x ".") eqn:Hx; simpl.
    + right. exists "", b. apply Ascii.eqb_eq in Hx. subst x. now split.
    + left. exact Hnone.
  - right. exists (String x pre), tail. now split.
Qed.

Lemma from_last_dot_none s : no_char "." s = true -> from_last_dot s = "".
Proof.
  induction s as [|c s IH]; simpl; [reflexivity|].
  intros H. apply andb_true_iff in H as [Hc Hs].
  rewrite (IH Hs). apply negb_true_iff in Hc. now rewrite Hc.
Qed.

Lemma from_last_dot_app pre tail :
  no_char "." tail = true ->
  from_last_dot (pre ++ String "." tail) = String "." tail.
Proof.
  intros Htail. induction pre as [|c pre IH]; simpl.
  - now rewrite (from_last_dot_none tail Htail).
  - simpl in IH. now rewrite IH.
Qed.

Lemma lstrip_dots_all dots s :
  all_dots dots = true -> lstrip_dots (dots ++ s) = lstrip_dots s.
Proof.
  induction dots as [|c dots IH]; simpl; [reflexivity|].
  intros H. apply andb_true_iff in H as [Hc Hd]. rewrite Hc. now apply IH.
Qed.

Lemma lstrip_dots_some pre s :
  all_dots pre = false -> exists pre', lstrip_dots (pre ++ s) = pre' ++ s.
Proof.
  induction pre as [|c pre IH]; simpl; [discriminate|].
  destruct (Ascii.eqb c "."); simpl.
  - exact IH.
  - intros _. now exists (String c pre).
Qed.

Lemma lstrip_dots_none s : no_char "." s = true -> lstrip_dots s = s.
Proof.
  destruct s as [|c s]; simpl; [reflexivity|].
  intros H. apply andb_true_iff in H as [Hc _].
  apply negb_true_iff in Hc. now rewrite Hc.
Qed.

(** [os.path.splitext] on a path whose file name has no dot. *)
Lemma splitext_no_dot dir b :
  ends_directory E dir = true ->
  no_char "." b = true ->
  no_char (os_sep E) b = true ->
  match os_altsep E with
  | Some c => no_char c b
  | None => true
  end = true ->
  splitext E (dir ++ b) = (dir ++ b, "").
Proof.
  intros Hdir Hdot Hsep Halt.
  set (p := dir ++ b).
  unfold splitext, _splitext. fold p.
  set (sepIndex := match os_altsep E with
                   | Some a => Z.max (rfind (os_sep E) p) (rfind a p)
                   | None => rfind (os_sep E) p
                   end).
  assert (Hd : rfind "." p = rfind "." dir).
  { unfold rfind, p. now apply rfind_from_app_none. }
  assert (Hle : rfind "." p <= sepIndex).
  { rewrite Hd. unfold ends_directory in Hdir.
    destruct (last_char dir) as [c|] eqn:Hlast.
    - destruct (last_char_some dir c Hlast) as [dir' Hdir'].
      assert (Hl : String.length dir = S (String.length dir')).
      { rewrite Hdir', length_append_str. simpl. lia. }
      pose proof (rfind_from_bound "." dir 0 ltac:(lia)) as Hb.
      fold (rfind "." dir) in Hb.
      assert (Hat : forall d, Ascii.eqb c d = true -> no_char d b = true ->
                              rfind d p = Z.of_nat (String.length dir')).
      { intros d Hcd Hn. apply Ascii.eqb_eq in Hcd. subst d.
        unfold rfind, p. rewrite Hdir', append_assoc_str. simpl.
        rewrite rfind_from_app_last; [lia | lia | exact Hn]. }
      unfold sepIndex, is_separator in *.
      destruct (os_altsep E) as [alt|].
      + apply orb_true_iff in Hdir as [Hc | Hc].
        * rewrite (Hat _ Hc Hsep). lia.
        * rewrite (Hat _ Hc Halt). lia.
      + rewrite orb_false_r in Hdir. rewrite (Hat _ Hdir Hsep). lia.
    - apply last_char_none in Hlast. rewrite Hlast. unfold rfind. simpl.
      assert (Hge : forall d, -1 <= rfind d p).
      { intros d. pose proof (rfind_from_bound d p 0 ltac:(lia)).
        unfold rfind. lia. }
      unfold sepIndex. pose proof (Hge (os_sep E)).
      destruct (os_altsep E) as [alt|]; [pose proof (Hge alt)|]; lia. }
  destruct (sepIndex <? rfind "." p) eqn:Hlt; [|reflexivity].
  apply Z.ltb_lt in Hlt. lia.
Qed.

(** The second component of [os.path.splitext] is the extension of the
    path, for every path and every choice of separators. *)
Lemma splitext_is_path_extension p :
  snd (splitext E p) = path_extension E p.
Proof.
  unfold path_extension.
  destruct (file_name_split p) as (dir & Hp & Hdir & Hfn).
  destruct (no_separator_no_char _ Hfn) as [Hsep Halt].
  destruct (last_dot_split (file_name E p))
    as [Hnone | (pre & tail & Hb & Htail)].
  - rewrite (lstrip_dots_none _ Hnone), (from_last_dot_none _ Hnone).
    rewrite Hp at 1.
    now rewrite (splitext_no_dot dir _ Hdir Hnone Hsep Halt).
  - rewrite Hb in *. rewrite Hp at 1.
    destruct (all_dots pre) eqn:Hpre.
    + rewrite (splitext_dot_file E dir pre tail Hpre Htail Hsep Halt Hdir).
      rewrite (lstrip_dots_all pre _ Hpre). simpl.
      rewrite (lstrip_dots_none _ Htail).
      now rewrite (from_last_dot_none _ Htail).
    + rewrite (splitext_name_ext E dir pre tail Htail Hpre Hsep Halt).
      destruct (lstrip_dots_some pre (String "." tail) Hpre) as [pre' ->].
      now rewrite (from_last_dot_app pre' tail Htail).
Qed.

End Extension.

(** C6, as the code has it: the extension the task looks at is the one
    [os.path.splitext] computes, which is the extension of the path as
    [path_extension] says it: what starts at the last dot of the file name,
    the leading dots of the name not counting.  The task runs ffmpeg exactly
    when that extension is not a spelling of [.wav], and then with the
    arguments for 16000 Hz, one channel, wav on standard output; otherwise
    the file is opened, never transcoded, and its bytes reach the recognizer
    as they were read. *)
Theorem transcoder_iff_extension_not_wav
  (E : Env) (file_path : string) (a : App E) :
  let a' := snd (load_audio_file_task E file_path a) in
  let wav := wav_spelling (path_extension E file_path) in
  let argv := ["ffmpeg"; "-i"; file_path; "-ar"; "16000"; "-ac"; "1";
               "-f"; "wav"; "pipe:1"] in
  snd (splitext E file_path) = path_extension E file_path
  /\ subprocess_calls (trace a') =
     (subprocess_calls (trace a) ++ if wav then [] else [argv])%list
  /\ open_calls (trace a') =
     (open_calls (trace a) ++ if wav then [file_path] else [])%list
  /\ accept_calls (trace a') =
     (accept_calls (trace a) ++
      if wav
      then match open_read E file_path with Ok d => [d] | Raise _ => [] end
      else match subprocess_run E argv with
           | Ok process => [stdout process]
           | Raise _ => []
           end)%list.
Proof.
  cbv zeta. split; [apply splitext_is_path_extension|].
  rewrite <- (splitext_is_path_extension E file_path).
  exact (transcoder_iff_not_wav E file_path a).
Qed.

(** C6 as stated fails: the path [/home/me/.wav] ends in [.wav], yet its
    file name is a dot file without extension, so the task does not open it
    and runs ffmpeg on it. *)
Lemma hidden_wav_file_is_transcoded :
  let out := load_audio_file_task Demo.env "/home/me/.wav" (new_app Demo.env) in
  "/home/me/.wav" = "/home/me/" ++ ".wav"
  /\ path_extension Demo.env "/home/me/.wav" = ""
  /\ subprocess_calls (trace (snd out)) =
     [["ffmpeg"; "-i"; "/home/me/.wav"; "-ar"; "16000"; "-ac"; "1";
       "-f"; "wav"; "pipe:1"]]
  /\ open_calls (trace (snd out)) = [].
Proof. repeat split. Qed.
